(** * The circle permutation engine of [pure_circle.cpp]

    A shallow embedding of the generation loop of [main] and the
    properties of its counter, its buffers and its running total. *)

From Stdlib Require Import ZArith List Lia Permutation Factorial.
From stdpp Require Import base numbers list list_numbers.

Local Open Scope Z_scope.

(** ** Data model *)

(** The two static arrays of [main]. *)
Inductive array := ArrD | ArrC.

Inductive access := Rd | Wr.

(** One array access: the source line that performs it, the array, the
    kind of access and the index.  The log is ghost state: no operation
    reads it.  The most recent access is at the head of the log. *)
Record event := Ev {
  ev_line : Z;
  ev_arr : array;
  ev_kind : access;
  ev_idx : Z
}.

(** The program state: [Circle_D] (3*N ints), [C_PP] (N ints),
    [total_perms] (unsigned long long) and the access log. *)
Record state := St {
  Circle_D : list Z;
  C_PP : list Z;
  total_perms : Z;
  log : list event
}.

(** [unsigned long long] is 64 bits wide.  The [int] cells hold labels,
    digits and indices below [3*N] only, so they are plain integers. *)
Definition ULL_MOD : Z := 2 ^ 64.

(** ** State and error monad: [None] is an out-of-bounds access *)

Definition M (A : Type) : Type := state -> option (A * state).

Definition ret {A} (a : A) : M A := fun s => Some (a, s).

Definition bind {A B} (m : M A) (f : A -> M B) : M B :=
  fun s => match m s with
           | Some (a, s') => f a s'
           | None => None
           end.

Notation "x <- m ;; k" := (bind m (fun x => k))
  (at level 90, m at next level, right associativity).
Notation "m ;;; k" := (bind m (fun _ => k))
  (at level 90, right associativity).

(** Checked indexing. *)
Definition rd (a : list Z) (i : Z) : option Z :=
  if decide (0 <= i) then a !! Z.to_nat i else None.

Definition wr (a : list Z) (i v : Z) : option (list Z) :=
  if decide (0 <= i < Z.of_nat (length a))
  then Some (<[Z.to_nat i := v]> a) else None.

Definition rdD (line i : Z) : M Z := fun s =>
  match rd (Circle_D s) i with
  | Some v => Some (v, St (Circle_D s) (C_PP s) (total_perms s)
                          (Ev line ArrD Rd i :: log s))
  | None => None
  end.

Definition wrD (line i v : Z) : M unit := fun s =>
  match wr (Circle_D s) i v with
  | Some d => Some (tt, St d (C_PP s) (total_perms s)
                           (Ev line ArrD Wr i :: log s))
  | None => None
  end.

Definition rdC (line i : Z) : M Z := fun s =>
  match rd (C_PP s) i with
  | Some v => Some (v, St (Circle_D s) (C_PP s) (total_perms s)
                          (Ev line ArrC Rd i :: log s))
  | None => None
  end.

Definition wrC (line i v : Z) : M unit := fun s =>
  match wr (C_PP s) i v with
  | Some c => Some (tt, St (Circle_D s) c (total_perms s)
                           (Ev line ArrC Wr i :: log s))
  | None => None
  end.

(** [total_perms += n] on a 64-bit unsigned. *)
Definition add_total (n : Z) : M unit := fun s =>
  Some (tt, St (Circle_D s) (C_PP s) ((total_perms s + n) mod ULL_MOD) (log s)).

(** [for (int j = lo; j < lo + n; j++) body(j)]. *)
Fixpoint for_loop (n : nat) (j : Z) (body : Z -> M unit) : M unit :=
  match n with
  | O => ret tt
  | S n' => body j ;;; for_loop n' (j + 1) body
  end.

(** ** The program *)

Section Engine.

Variable N : Z.

Definition lastIndex : Z := N - 1.
Definition secondLastIndex : Z := N - 2.

(** The three windows of [Circle_D], as offsets. *)
Definition P1 : Z := 0.
Definition P2 : Z := N.
Definition P3 : Z := N + (N - 1).

(** [memcpy(dst, src, n * sizeof(int))] inside [Circle_D]. *)
Definition memcpy (line dst src : Z) (n : Z) : M unit :=
  for_loop (Z.to_nat n) 0 (fun k =>
    v <- rdD line (src + k) ;; wrD line (dst + k) v).

(** Line 80. *)
Definition init_P1 : M unit :=
  for_loop (Z.to_nat N) 0 (fun j => wrD 80 (P1 + j) j).

(** Lines 87-88. *)
Definition sync_mirror : M unit :=
  memcpy 87 P2 P1 (N - 1) ;;;
  memcpy 88 P3 P1 (N - 1).

(** Lines 92-94, one shift step. *)
Definition burst_step (circle_index : Z) : M unit :=
  add_total N ;;;
  v <- rdD 93 (N + circle_index) ;;
  wrD 93 (lastIndex + circle_index) v ;;;
  wrD 94 (N + circle_index) lastIndex.

(** Lines 91-95. *)
Definition burst : M unit :=
  for_loop (Z.to_nat lastIndex) 0 burst_step.

(** [int temp = P1[i]; P1[i] = P1[target]; P1[target] = temp;] *)
Definition swap_P1 (line i target : Z) : M unit :=
  temp <- rdD line (P1 + i) ;;
  v <- rdD line (P1 + target) ;;
  wrD line (P1 + i) v ;;;
  wrD line (P1 + target) temp.

(** [C_PP[i]++] *)
Definition incr_C (line i : Z) : M unit :=
  c <- rdC line i ;; wrC line i (c + 1).

(** Lines 100-106: [while (i > 0 && C_PP[i] > i) { ... i--; ... }].
    The loop variable only decreases and the loop stops at 0, so the
    recursion is on [i] itself; the result is the value of [i] at exit. *)
Fixpoint carry_loop (k : nat) : M Z :=
  match k with
  | O => ret 0
  | S k' =>
      let i := Z.of_nat k in
      c <- rdC 100 i ;;
      if i <? c then
        target <- (c <- rdC 101 i ;; ret (c - 1)) ;;
        swap_P1 102 i target ;;;
        wrC 103 i 0 ;;;
        incr_C 105 (i - 1) ;;;
        carry_loop k'
      else ret i
  end.

(** Lines 107-112. *)
Definition final_swap (i : Z) : M unit :=
  c0 <- rdC 107 0 ;;
  if c0 <? 1 then
    target <- (c <- rdC 108 i ;; ret (c - 1)) ;;
    if 0 <=? target then swap_P1 110 i target else ret tt
  else ret tt.

(** Lines 98-113. *)
Definition advance_base : M unit :=
  let i := N - 3 in
  incr_C 99 i ;;;
  i <- carry_loop (Z.to_nat i) ;;
  final_swap i ;;;
  wrD 113 (P1 + lastIndex) lastIndex.

(** Lines 86-113, the body of the outer loop. *)
Definition outer_body : M unit :=
  sync_mirror ;;;
  burst ;;;
  advance_base.

(** Line 85: [while (C_PP[0] < 1) body].  The result is [true] when the
    loop condition failed (normal exit) and [false] when the fuel ran
    out first. *)
Fixpoint while_loop (fuel : nat) : M bool :=
  c <- rdC 85 0 ;;
  if c <? 1 then
    match fuel with
    | O => ret false
    | S f => outer_body ;;; while_loop f
    end
  else ret true.

(** Lines 73-74 and 82: zero-initialised statics. *)
Definition init_state : state :=
  St (replicate (Z.to_nat (3 * N)) 0) (replicate (Z.to_nat N) 0) 0 [].

(** Lines 73-114. *)
Definition run (fuel : nat) : option (bool * state) :=
  (init_P1 ;;; while_loop fuel) init_state.

(** The state at the [k]-th evaluation of the loop condition
    ([k] = 0 is the first one): [k] times, the condition held and the
    body ran. *)
Definition enter_loop : M unit :=
  c <- rdC 85 0 ;;
  if c <? 1 then ret tt else (fun _ => None).

Fixpoint loop_head (k : nat) : M unit :=
  match k with
  | O => init_P1
  | S k' => loop_head k' ;;; enter_loop ;;; outer_body
  end.

End Engine.

(** ** Observations on a state *)

(** [len] cells of [Circle_D] from offset [off]. *)
Definition window (s : state) (off len : Z) : list Z :=
  take (Z.to_nat len) (drop (Z.to_nat off) (Circle_D s)).

(** The window [P1], as a list. *)
Definition P1_of (N : Z) (s : state) : list Z := window s 0 N.

(** Each label [0..N-1] exactly once. *)
Definition is_permutation (N : Z) (l : list Z) : Prop := l ≡ₚ seqZ 0 N.

(** [P2] and [P3] are copies of the first [N-1] cells of [P1]. *)
Definition mirrored (N : Z) (s : state) : Prop :=
  window s (P2 N) (N - 1) = window s P1 (N - 1) /\
  window s (P3 N) (N - 1) = window s P1 (N - 1).

(** Program points inside the loop: the evaluation of the loop
    condition, after line 88 and after line 95. *)
Inductive point := AtHead | AfterSync | AfterBurst.

Definition state_at (N : Z) (k : nat) (pt : point) : option state :=
  snd <$>
    match pt with
    | AtHead => loop_head N k
    | AfterSync => loop_head N k ;;; enter_loop ;;; sync_mirror N
    | AfterBurst => loop_head N k ;;; enter_loop ;;; sync_mirror N ;;; burst N
    end (init_state N).

(** ** The access discipline of the loop *)

(** What the log may hold, by array and source line: [C_PP] only at
    [0..N-3]; the burst (lines 91-95) only at [Circle_D[N-1..2N-2]]; the
    swaps (lines 102 and 110) only at [P1[0..N-3]]; everything inside
    [Circle_D], and no read of the trailing window [2N-1..3N-2]. *)
Definition ev_ok (N : Z) (e : event) : Prop :=
  match ev_arr e with
  | ArrC => 0 <= ev_idx e <= N - 3
  | ArrD =>
      0 <= ev_idx e < 3 * N /\
      (91 <= ev_line e <= 95 -> N - 1 <= ev_idx e <= 2 * N - 2) /\
      (ev_line e = 102 \/ ev_line e = 110 -> 0 <= ev_idx e <= N - 3) /\
      (ev_kind e = Rd -> ~ (2 * N - 1 <= ev_idx e <= 3 * N - 2))
  end.

(** The accesses of the burst. *)
Definition burst_ev (N : Z) (e : event) : Prop :=
  ev_arr e = ArrD /\ 91 <= ev_line e <= 95 /\
  N - 1 <= ev_idx e <= 2 * N - 2.

(** [l] is [l0] with later accesses that all satisfy [P]. *)
Definition log_ext (P : event -> Prop) (l0 l : list event) : Prop :=
  exists ev, l = ev ++ l0 /\ Forall P ev.

(** ** The factorial-base counter *)

(** The number the digits [C[0..j]] stand for: digit [i] has radix
    [i+1] and digit [j] is the least significant. *)
Fixpoint val (C : list Z) (j : nat) : Z :=
  match j with
  | O => C !!! 0%nat
  | S j' => val C j' * (Z.of_nat j + 1) + C !!! j
  end.

Definition zfact (n : nat) : Z := Z.of_nat (fact n).

(** A counter the loop can start an iteration with. *)
Definition counter_ok (C : list Z) : Prop :=
  forall j : nat, 0 <= C !!! j <= Z.of_nat j.

(** A carry is pending at digit [k]. *)
Definition carry_at (k : nat) (C : list Z) : Prop :=
  (forall j : nat, 0 <= C !!! j) /\
  (forall j : nat, j <> 0%nat -> j <> k -> C !!! j <= Z.of_nat j) /\
  1 <= C !!! k <= Z.of_nat k + 1 /\
  (k <> 0%nat -> C !!! 0%nat = 0).

(** After the carries: every digit but the leading one is in range. *)
Definition counter_after (C : list Z) : Prop :=
  (forall j : nat, 0 <= C !!! j) /\
  (forall j : nat, j <> 0%nat -> C !!! j <= Z.of_nat j) /\
  C !!! 0%nat <= 1.

(** ** The successor rule on plain arrays

    The rule in the words of the specification, as a function on the
    arrays [P] and [C] without bounds checks and without a log:
    increment [C] at [i = N-3]; while [C[i] > i] and [i > 0] swap [P[i]]
    with [P[C[i]-1]], reset [C[i]] to 0, decrement [i], increment
    [C[i]]; then, if [C[0] < 1], swap [P[i]] with [P[C[i]-1]] unless
    the target is negative; "the last position is always held fixed by
    this phase": [P[N-1]] is set to [N-1]. *)

Definition swap_cells (P : list Z) (i t : Z) : list Z :=
  <[Z.to_nat t := P !!! Z.to_nat i]> (<[Z.to_nat i := P !!! Z.to_nat t]> P).

Fixpoint carry_rule (k : nat) (P C : list Z) : Z * list Z * list Z :=
  match k with
  | O => (0, P, C)
  | S k' =>
      let i := Z.of_nat k in
      if i <? C !!! k then
        let P' := swap_cells P i (C !!! k - 1) in
        let C' := <[k := 0]> C in
        let C'' := <[k' := C' !!! k' + 1]> C' in
        carry_rule k' P' C''
      else (i, P, C)
  end.

Definition last_swap_rule (i : Z) (P C : list Z) : list Z :=
  if C !!! 0%nat <? 1 then
    let target := C !!! Z.to_nat i - 1 in
    if 0 <=? target then swap_cells P i target else P
  else P.

(** The rule with the store to [P[N-1]] performed on every call. *)
Definition advance_base_rule (N : Z) (P C : list Z) : list Z * list Z :=
  let i := N - 3 in
  let C1 := <[Z.to_nat i := C !!! Z.to_nat i + 1]> C in
  let '(i', P2, C2) := carry_rule (Z.to_nat i) P C1 in
  let P3 := last_swap_rule i' P2 C2 in
  (<[Z.to_nat (N - 1) := N - 1]> P3, C2).

(** ** The loop invariant *)

(** What holds whenever the loop condition is evaluated, after [k]
    executions of the body. *)
Definition Inv (N : Z) (k : nat) (s : state) : Prop :=
  Z.of_nat (length (Circle_D s)) = 3 * N /\
  Z.of_nat (length (C_PP s)) = N /\
  counter_after (C_PP s) /\
  val (C_PP s) (Z.to_nat (N - 3)) = Z.of_nat k /\
  take (Z.to_nat (N - 2)) (Circle_D s) ≡ₚ seqZ 0 (N - 2) /\
  rd (Circle_D s) (N - 2) = Some (N - 2) /\
  rd (Circle_D s) (N - 1) = Some (N - 1) /\
  total_perms s = (Z.of_nat k * (N * (N - 1))) mod ULL_MOD /\
  Forall (ev_ok N) (log s).

(** The number of outer iterations, [(N-2)!]. *)
Definition iterations (N : Z) : nat := fact (Z.to_nat (N - 2)).

(** ** What each phase does to the state *)

(** Lines 87-88, from [s] to [s']. *)
Definition synced (N : Z) (s s' : state) : Prop :=
  length (Circle_D s') = length (Circle_D s) /\
  (forall i, rd (Circle_D s') i =
     if decide (N <= i < 2 * N - 1) then rd (Circle_D s) (i - N)
     else if decide (2 * N - 1 <= i < 3 * N - 2)
          then rd (Circle_D s) (i - (2 * N - 1))
          else rd (Circle_D s) i) /\
  C_PP s' = C_PP s /\ total_perms s' = total_perms s /\
  log_ext (ev_ok N) (log s) (log s').

(** Lines 91-95, from [s] to [s']. *)
Definition bursted (N : Z) (s s' : state) : Prop :=
  length (Circle_D s') = length (Circle_D s) /\
  (forall i, rd (Circle_D s') i =
     if decide (N - 1 <= i < 2 * N - 2) then rd (Circle_D s) (i + 1)
     else if decide (i = 2 * N - 2) then Some (N - 1)
          else rd (Circle_D s) i) /\
  C_PP s' = C_PP s /\
  total_perms s' = (total_perms s + N * (N - 1)) mod ULL_MOD /\
  log_ext (burst_ev N) (log s) (log s').

(** Lines 98-113, from [s] to [s']. *)
Definition advanced (N : Z) (s s' : state) : Prop :=
  (Circle_D s', C_PP s') = advance_base_rule N (Circle_D s) (C_PP s) /\
  length (Circle_D s') = length (Circle_D s) /\
  length (C_PP s') = length (C_PP s) /\
  counter_after (C_PP s') /\
  val (C_PP s') (Z.to_nat (N - 3)) = val (C_PP s) (Z.to_nat (N - 3)) + 1 /\
  take (Z.to_nat (N - 2)) (Circle_D s') ≡ₚ
    take (Z.to_nat (N - 2)) (Circle_D s) /\
  (forall j, N - 2 <= j ->
     rd (Circle_D s') j =
       if decide (j = N - 1) then Some (N - 1) else rd (Circle_D s) j) /\
  total_perms s' = total_perms s /\
  log_ext (ev_ok N) (log s) (log s').

(** ** The program without the synchronisation of [P3] (line 88) *)

Definition sync_mirror_noP3 (N : Z) : M unit :=
  memcpy 87 (P2 N) P1 (N - 1).

Definition outer_body_noP3 (N : Z) : M unit :=
  sync_mirror_noP3 N ;;;
  burst N ;;;
  advance_base N.

Fixpoint while_loop_noP3 (N : Z) (fuel : nat) : M bool :=
  c <- rdC 85 0 ;;
  if c <? 1 then
    match fuel with
    | O => ret false
    | S f => outer_body_noP3 N ;;; while_loop_noP3 N f
    end
  else ret true.

Definition run_noP3 (N : Z) (fuel : nat) : option (bool * state) :=
  (init_P1 N ;;; while_loop_noP3 N fuel) (init_state N).

(** The trailing window, [Circle_D[2N-1..3N-2]]. *)
Definition in_P3 (N i : Z) : Prop := 2 * N - 1 <= i <= 3 * N - 2.

(** An access that is not a read of the trailing window. *)
Definition avoids_P3 (N : Z) (e : event) : Prop :=
  ev_arr e = ArrD -> ev_kind e = Rd -> ~ in_P3 N (ev_idx e).

(** Two states that agree on everything but the trailing window and
    the log. *)
Definition sim (N : Z) (s s' : state) : Prop :=
  Z.of_nat (length (Circle_D s)) = 3 * N /\
  length (Circle_D s') = length (Circle_D s) /\
  C_PP s' = C_PP s /\
  total_perms s' = total_perms s /\
  forall i, ~ in_P3 N i -> rd (Circle_D s') i = rd (Circle_D s) i.

(** [m'] follows [m]: when [m] succeeds without reading the trailing
    window, [m'] succeeds from every similar state with the same result
    and a similar state; and [m] only adds to the log. *)
Definition follows (N : Z) {A} (m m' : M A) : Prop :=
  forall s a s1, m s = Some (a, s1) ->
    (exists ev, log s1 = ev ++ log s) /\
    forall s', sim N s s' -> Forall (avoids_P3 N) (log s1) ->
      exists s1', m' s' = Some (a, s1') /\ sim N s1 s1'.

(** ** Total correctness in the monad

    [wp m s Q]: from [s] the computation [m] succeeds, with a result
    and a final state that satisfy [Q]. *)
Definition wp {A} (m : M A) (s : state) (Q : A -> state -> Prop) : Prop :=
  match m s with
  | Some (a, s') => Q a s'
  | None => False
  end.

(** ** Inside the burst

    The state of iteration [k] after the first [n] shift steps of its
    burst (lines 91-95 with [circle_index] below [n]). *)
Definition state_in_burst (N : Z) (k n : nat) : option state :=
  snd <$> (loop_head N k ;;; enter_loop ;;; sync_mirror N ;;;
           for_loop n 0 (burst_step N)) (init_state N).

(** * Properties *)

(** ** Checked indexing *)

Lemma rd_Some a i v : rd a i = Some v -> 0 <= i < Z.of_nat (length a).
Proof.
  unfold rd. case_decide; [|done]. intros Hl%lookup_lt_Some. lia.
Qed.

Lemma rd_is_Some a i : 0 <= i < Z.of_nat (length a) -> is_Some (rd a i).
Proof.
  intros H. unfold rd. rewrite decide_True by lia.
  apply lookup_lt_is_Some. lia.
Qed.

Lemma rd_None a i : ~ (0 <= i < Z.of_nat (length a)) -> rd a i = None.
Proof.
  intros H. destruct (rd a i) eqn:E; [|done]. apply rd_Some in E. lia.
Qed.

Lemma wr_Some a i v : 0 <= i < Z.of_nat (length a) ->
  wr a i v = Some (<[Z.to_nat i := v]> a).
Proof. intros H. unfold wr. by rewrite decide_True. Qed.

Lemma rd_insert a i j v : 0 <= i < Z.of_nat (length a) ->
  rd (<[Z.to_nat i := v]> a) j = if decide (j = i) then Some v else rd a j.
Proof.
  intros H. unfold rd. case_decide as Hj.
  - case_decide as E.
    + subst j. apply list_lookup_insert_eq. lia.
    + apply list_lookup_insert_ne. lia.
  - case_decide; [lia|done].
Qed.

Lemma rd_total a i v : rd a i = Some v -> a !!! Z.to_nat i = v.
Proof.
  unfold rd. case_decide; [|done]. intros Hl.
  by apply list_lookup_total_correct.
Qed.

Lemma rd_lookup a (j : nat) : rd a (Z.of_nat j) = a !! j.
Proof. unfold rd. rewrite decide_True by lia. by rewrite Nat2Z.id. Qed.

(** Two arrays of one length with the same cells are equal. *)
Lemma rd_ext a b :
  length a = length b -> (forall i, rd a i = rd b i) -> a = b.
Proof.
  intros Hl H. apply list_eq. intros j. rewrite <- !rd_lookup. apply H.
Qed.

(** ** Rules of the weakest precondition *)

Lemma wp_ret {A} (a : A) s Q : Q a s -> wp (ret a) s Q.
Proof. done. Qed.

Lemma wp_bind {A B} (m : M A) (f : A -> M B) s Q :
  wp m s (fun a s' => wp (f a) s' Q) -> wp (bind m f) s Q.
Proof. unfold wp, bind. by destruct (m s) as [[a s']|]. Qed.

Lemma wp_mono {A} (m : M A) s (Q Q' : A -> state -> Prop) :
  wp m s Q -> (forall a s', Q a s' -> Q' a s') -> wp m s Q'.
Proof. unfold wp. destruct (m s) as [[a s']|]; [|done]. eauto. Qed.

Lemma wp_elim {A} (m : M A) s Q :
  wp m s Q -> exists a s', m s = Some (a, s') /\ Q a s'.
Proof. unfold wp. destruct (m s) as [[a s']|]; [|done]. eauto. Qed.

Lemma wp_intro {A} (m : M A) s (Q : A -> state -> Prop) a s' :
  m s = Some (a, s') -> Q a s' -> wp m s Q.
Proof. unfold wp. by intros ->. Qed.

Lemma wp_rdD line i s Q v :
  rd (Circle_D s) i = Some v ->
  Q v (St (Circle_D s) (C_PP s) (total_perms s) (Ev line ArrD Rd i :: log s)) ->
  wp (rdD line i) s Q.
Proof. unfold wp, rdD. by intros ->. Qed.

Lemma wp_wrD line i v s (Q : unit -> state -> Prop) :
  0 <= i < Z.of_nat (length (Circle_D s)) ->
  Q tt (St (<[Z.to_nat i := v]> (Circle_D s)) (C_PP s) (total_perms s)
           (Ev line ArrD Wr i :: log s)) ->
  wp (wrD line i v) s Q.
Proof. intros H. unfold wp, wrD. by rewrite wr_Some. Qed.

Lemma wp_rdC line i s Q v :
  rd (C_PP s) i = Some v ->
  Q v (St (Circle_D s) (C_PP s) (total_perms s) (Ev line ArrC Rd i :: log s)) ->
  wp (rdC line i) s Q.
Proof. unfold wp, rdC. by intros ->. Qed.

Lemma wp_wrC line i v s (Q : unit -> state -> Prop) :
  0 <= i < Z.of_nat (length (C_PP s)) ->
  Q tt (St (Circle_D s) (<[Z.to_nat i := v]> (C_PP s)) (total_perms s)
           (Ev line ArrC Wr i :: log s)) ->
  wp (wrC line i v) s Q.
Proof. intros H. unfold wp, wrC. by rewrite wr_Some. Qed.

Lemma wp_add_total n s (Q : unit -> state -> Prop) :
  Q tt (St (Circle_D s) (C_PP s) ((total_perms s + n) mod ULL_MOD) (log s)) ->
  wp (add_total n) s Q.
Proof. done. Qed.

(** The invariant rule of the counted loop. *)
Lemma wp_for_loop (I : Z -> state -> Prop) n j body s :
  I j s ->
  (forall j' s', j <= j' < j + Z.of_nat n -> I j' s' ->
     wp (body j') s' (fun _ s'' => I (j' + 1) s'')) ->
  wp (for_loop n j body) s (fun _ s' => I (j + Z.of_nat n) s').
Proof.
  revert j s. induction n as [|n IH]; intros j s HI Hbody.
  - simpl. apply wp_ret. by replace (j + Z.of_nat 0) with j by lia.
  - simpl. apply wp_bind. eapply wp_mono; [apply Hbody; [lia|done]|].
    intros [] s' HI'. cbv beta in *.
    replace (j + Z.of_nat (S n)) with ((j + 1) + Z.of_nat n) by lia.
    apply IH; [done|]. intros j' s'' Hj. apply Hbody. lia.
Qed.

(** ** The access log *)

Lemma log_ext_refl P l : log_ext P l l.
Proof. exists []. by split. Qed.

Lemma log_ext_cons P l0 l e : log_ext P l0 l -> P e -> log_ext P l0 (e :: l).
Proof.
  intros (ev & -> & H) He. exists (e :: ev). split; [done|]. by constructor.
Qed.

Lemma log_ext_trans P l0 l1 l2 :
  log_ext P l0 l1 -> log_ext P l1 l2 -> log_ext P l0 l2.
Proof.
  intros (ev1 & -> & H1) (ev2 & -> & H2). exists (ev2 ++ ev1).
  split; [by rewrite app_assoc|]. by apply Forall_app.
Qed.

Lemma log_ext_weaken (P P' : event -> Prop) l0 l :
  (forall e, P e -> P' e) -> log_ext P l0 l -> log_ext P' l0 l.
Proof.
  intros HP (ev & -> & H). exists ev. split; [done|].
  eapply Forall_impl; eauto.
Qed.

Lemma log_ext_Forall P l0 l : log_ext P l0 l -> Forall P l0 -> Forall P l.
Proof. intros (ev & -> & H) H0. by apply Forall_app. Qed.

Lemma burst_ev_ok N e : 1 <= N -> burst_ev N e -> ev_ok N e.
Proof.
  intros HN (Ha & Hl & Hi). unfold ev_ok. rewrite Ha.
  repeat split; intros; lia.
Qed.

(** ** The phases of one outer iteration *)

Section Phases.

Variable N : Z.

(** [memcpy] between disjoint regions inside the buffer. *)
Lemma memcpy_spec line dst src n s :
  0 <= n -> 0 <= src -> 0 <= dst ->
  src + n <= Z.of_nat (length (Circle_D s)) ->
  dst + n <= Z.of_nat (length (Circle_D s)) ->
  src + n <= dst \/ dst + n <= src ->
  wp (memcpy line dst src n) s (fun _ s' =>
    length (Circle_D s') = length (Circle_D s) /\
    (forall i, rd (Circle_D s') i =
       if decide (dst <= i < dst + n) then rd (Circle_D s) (src + (i - dst))
       else rd (Circle_D s) i) /\
    C_PP s' = C_PP s /\ total_perms s' = total_perms s /\
    log_ext (fun e => ev_arr e = ArrD /\ ev_line e = line /\
               match ev_kind e with
               | Rd => src <= ev_idx e < src + n
               | Wr => dst <= ev_idx e < dst + n
               end) (log s) (log s')).
Proof.
  intros Hn Hsrc Hdst Hs Hd Hdis. unfold memcpy.
  eapply wp_mono.
  - apply (wp_for_loop (fun k s' =>
      0 <= k /\
      length (Circle_D s') = length (Circle_D s) /\
      (forall i, rd (Circle_D s') i =
         if decide (dst <= i < dst + k) then rd (Circle_D s) (src + (i - dst))
         else rd (Circle_D s) i) /\
      C_PP s' = C_PP s /\ total_perms s' = total_perms s /\
      log_ext (fun e => ev_arr e = ArrD /\ ev_line e = line /\
               match ev_kind e with
               | Rd => src <= ev_idx e < src + n
               | Wr => dst <= ev_idx e < dst + n
               end) (log s) (log s'))).
    + split; [lia|]. split; [done|]. split.
      { intros i. by rewrite decide_False by lia. }
      repeat split; try done. apply log_ext_refl.
    + intros k s' Hk (Hk0 & Hlen & HD & HC & HT & HL).
      destruct (rd_is_Some (Circle_D s') (src + k)) as [v Hv]; [lia|].
      apply wp_bind. eapply (wp_rdD _ _ _ _ v); [done|]. cbv beta.
      eapply wp_wrD; simpl; [lia|].
      split; [lia|]. split; [by rewrite length_insert|]. split.
      { intros i. rewrite rd_insert by lia.
        case_decide as E1.
        - subst i. rewrite decide_True by lia.
          rewrite <- Hv, HD. rewrite decide_False by lia. f_equal. lia.
        - rewrite HD. repeat case_decide; try lia; done. }
      repeat split; try done.
      apply log_ext_cons; [apply log_ext_cons; [done|]|];
        simpl; repeat split; first [done | lia].
  - intros [] s' (_ & Hlen & HD & HC & HT & HL).
    rewrite Z2Nat.id in HD by lia. rewrite Z.add_0_l in HD. done.
Qed.

Hypothesis N_ge_2 : 2 <= N.

(** Lines 87-88: both mirror windows receive [P1[0..N-2]]. *)
Lemma sync_mirror_spec s :
  Z.of_nat (length (Circle_D s)) = 3 * N ->
  wp (sync_mirror N) s (fun _ s' =>
    length (Circle_D s') = length (Circle_D s) /\
    (forall i, rd (Circle_D s') i =
       if decide (N <= i < 2 * N - 1) then rd (Circle_D s) (i - N)
       else if decide (2 * N - 1 <= i < 3 * N - 2)
            then rd (Circle_D s) (i - (2 * N - 1))
            else rd (Circle_D s) i) /\
    C_PP s' = C_PP s /\ total_perms s' = total_perms s /\
    log_ext (ev_ok N) (log s) (log s')).
Proof.
  intros Hlen. unfold sync_mirror, P1, P2, P3.
  apply wp_bind. eapply wp_mono; [apply memcpy_spec; lia|].
  intros [] s1 (Hl1 & HD1 & HC1 & HT1 & HL1). cbv beta.
  eapply wp_mono; [apply memcpy_spec; lia|].
  intros [] s2 (Hl2 & HD2 & HC2 & HT2 & HL2).
  split; [congruence|]. split.
  { intros i. rewrite HD2, !HD1.
    repeat case_decide; try lia; first [done | f_equal; lia]. }
  split; [congruence|]. split; [congruence|].
  eapply log_ext_trans; (eapply log_ext_weaken; [|eassumption]).
  - intros e (Ha & Hline & Hk). unfold ev_ok. rewrite Ha.
    destruct (ev_kind e); repeat split; intros; try lia; done.
  - intros e (Ha & Hline & Hk). unfold ev_ok. rewrite Ha.
    destruct (ev_kind e); repeat split; intros; try lia; done.
Qed.

(** Lines 91-95: the cells [N-1..2N-2] move one place down and the
    label [N-1] lands in cell [2N-2]; [total_perms] grows by [N] per
    shift step. *)
Lemma burst_spec s :
  Z.of_nat (length (Circle_D s)) = 3 * N ->
  wp (burst N) s (fun _ s' =>
    length (Circle_D s') = length (Circle_D s) /\
    (forall i, rd (Circle_D s') i =
       if decide (N - 1 <= i < 2 * N - 2) then rd (Circle_D s) (i + 1)
       else if decide (i = 2 * N - 2) then Some (N - 1)
            else rd (Circle_D s) i) /\
    C_PP s' = C_PP s /\
    total_perms s' = (total_perms s + N * (N - 1)) mod ULL_MOD /\
    log_ext (burst_ev N) (log s) (log s')).
Proof.
  intros Hlen. unfold burst, lastIndex.
  eapply wp_mono.
  - apply (wp_for_loop (fun ci s' =>
      0 <= ci /\
      length (Circle_D s') = length (Circle_D s) /\
      (forall i, rd (Circle_D s') i =
         if decide (N - 1 <= i < N - 1 + ci) then rd (Circle_D s) (i + 1)
         else if decide (i = N - 1 + ci /\ 1 <= ci) then Some (N - 1)
              else rd (Circle_D s) i) /\
      C_PP s' = C_PP s /\
      (ci = 0 -> total_perms s' = total_perms s) /\
      (1 <= ci -> total_perms s' = (total_perms s + N * ci) mod ULL_MOD) /\
      log_ext (burst_ev N) (log s) (log s'))).
    + split; [lia|]. split; [done|]. split.
      { intros i. rewrite decide_False by lia. by rewrite decide_False by lia. }
      repeat split; first [done | lia | apply log_ext_refl].
    + intros ci s' Hci (Hci0 & Hl & HD & HC & HT0 & HT & HL).
      unfold burst_step, lastIndex.
      apply wp_bind. apply wp_add_total. cbv beta.
      destruct (rd_is_Some (Circle_D s') (N + ci)) as [v Hv]; [lia|].
      apply wp_bind. eapply (wp_rdD _ _ _ _ v); [done|]. cbv beta.
      apply wp_bind. eapply wp_wrD; simpl; [lia|].
      eapply wp_wrD; simpl; [rewrite length_insert; lia|].
      split; [lia|]. split; [by rewrite !length_insert|]. split.
      { intros i. rewrite rd_insert by (rewrite length_insert; lia).
        rewrite rd_insert by lia.
        rewrite HD in Hv. rewrite decide_False in Hv by lia.
        rewrite decide_False in Hv by lia. rewrite <- Hv, HD.
        repeat case_decide; subst; try lia; first [done | f_equal; lia]. }
      split; [done|]. split; [lia|]. split.
      { intros _. destruct (decide (ci = 0)) as [->|Hne].
        - rewrite HT0 by done. f_equal. lia.
        - rewrite HT by lia. rewrite Z.add_mod_idemp_l by done. f_equal. lia. }
      repeat apply log_ext_cons; try done;
        unfold burst_ev; simpl; repeat split; first [done | lia].
  - intros [] s' (_ & Hl & HD & HC & HT0 & HT & HL).
    rewrite Z2Nat.id in * by lia. rewrite Z.add_0_l in *.
    split; [done|]. split.
    { intros i. rewrite HD. replace (N - 1 + (N - 1)) with (2 * N - 2) by lia.
      repeat case_decide; try lia; done. }
    split; [done|]. split; [|done]. apply HT. lia.
Qed.

End Phases.

(** ** Counter arithmetic *)

Lemma zfact_S n : zfact (S n) = (Z.of_nat n + 1) * zfact n.
Proof.
  unfold zfact. change (fact (S n)) with (S n * fact n)%nat.
  rewrite Nat2Z.inj_mul. lia.
Qed.

Lemma zfact_pos n : 0 < zfact n.
Proof. unfold zfact. pose proof (lt_O_fact n). lia. Qed.

Lemma val_ext C1 C2 j :
  (forall i : nat, (i <= j)%nat -> C1 !!! i = C2 !!! i) -> val C1 j = val C2 j.
Proof.
  induction j as [|j IH]; intros H; simpl.
  - apply H. lia.
  - rewrite IH by (intros; apply H; lia). rewrite (H (S j)) by lia. done.
Qed.

Lemma val_above C1 C2 k m :
  val C1 k = val C2 k ->
  (forall i : nat, (k < i)%nat -> C1 !!! i = C2 !!! i) ->
  (k <= m)%nat -> val C1 m = val C2 m.
Proof.
  intros Hk Habove. induction m as [|m IH]; intros Hm.
  - by replace k with 0%nat in Hk by lia.
  - destruct (decide (k = S m)) as [->|Hne]; [done|].
    simpl. rewrite IH by lia. rewrite (Habove (S m)) by lia. done.
Qed.

Lemma val_lower C j :
  (forall i : nat, 0 <= C !!! i) -> C !!! 0%nat * zfact (S j) <= val C j.
Proof.
  intros H0. induction j as [|j IH].
  - simpl. unfold zfact. simpl. lia.
  - rewrite zfact_S. cbn [val]. pose proof (H0 (S j)).
    pose proof (zfact_pos (S j)). nia.
Qed.

Lemma val_upper C j :
  (forall i : nat, i <> 0%nat -> C !!! i <= Z.of_nat i) ->
  val C j <= C !!! 0%nat * zfact (S j) + zfact (S j) - 1.
Proof.
  intros Hb. induction j as [|j IH].
  - simpl. unfold zfact. simpl. lia.
  - rewrite zfact_S. cbn [val]. pose proof (Hb (S j)).
    pose proof (zfact_pos (S j)). nia.
Qed.

(** Incrementing the last digit adds one. *)
Lemma val_incr C m :
  (m < length C)%nat -> val (<[m := C !!! m + 1]> C) m = val C m + 1.
Proof.
  intros Hm. destruct m as [|m]; simpl.
  - by rewrite list_lookup_total_insert_eq.
  - rewrite list_lookup_total_insert_eq by done.
    rewrite (val_ext _ C m); [lia|].
    intros i Hi. apply list_lookup_total_insert_ne. lia.
Qed.

(** One carry leaves the value unchanged: digit [k] holds its radix,
    is reset, and digit [k-1] grows by one. *)
Lemma val_carry C k m :
  (S k <= m)%nat -> (S k < length C)%nat ->
  C !!! S k = Z.of_nat (S k) + 1 ->
  val (<[k := <[S k := 0]> C !!! k + 1]> (<[S k := 0]> C)) m = val C m.
Proof.
  intros Hkm Hlen Hc. apply (val_above _ _ (S k)); [|intros i Hi|done].
  - cbn [val]. rewrite !list_lookup_total_insert_ne by lia.
    rewrite list_lookup_total_insert_eq by done.
    rewrite Hc.
    assert (Hk : val (<[k := C !!! k + 1]> (<[S k := 0]> C)) k = val C k + 1).
    { rewrite <- (val_ext (<[k := C !!! k + 1]> C)).
      - apply val_incr. lia.
      - intros i Hi. destruct (decide (i = k)) as [->|Hne].
        + rewrite !list_lookup_total_insert_eq; [done| |lia].
          rewrite length_insert. lia.
        + rewrite !list_lookup_total_insert_ne by lia. done. }
    rewrite Hk. lia.
  - rewrite !list_lookup_total_insert_ne by lia. done.
Qed.

(** ** The base advance, lines 98-113 *)

Lemma swap_P1_spec line i t s :
  0 <= i < Z.of_nat (length (Circle_D s)) ->
  0 <= t < Z.of_nat (length (Circle_D s)) ->
  wp (swap_P1 line i t) s (fun _ s' =>
    s' = St (swap_cells (Circle_D s) i t) (C_PP s) (total_perms s)
            (Ev line ArrD Wr t :: Ev line ArrD Wr i ::
             Ev line ArrD Rd t :: Ev line ArrD Rd i :: log s)).
Proof.
  intros Hi Ht. unfold swap_P1, P1. rewrite !Z.add_0_l.
  destruct (rd_is_Some (Circle_D s) i Hi) as [x Hx].
  destruct (rd_is_Some (Circle_D s) t Ht) as [y Hy].
  apply wp_bind. eapply (wp_rdD _ _ _ _ x); [done|]. cbv beta.
  apply wp_bind. eapply (wp_rdD _ _ _ _ y); [done|]. cbv beta.
  apply wp_bind. eapply wp_wrD; simpl; [lia|].
  eapply wp_wrD; simpl; [rewrite length_insert; lia|].
  unfold swap_cells. by rewrite (rd_total _ _ _ Hx), (rd_total _ _ _ Hy).
Qed.

Lemma incr_C_spec line i s :
  0 <= i < Z.of_nat (length (C_PP s)) ->
  wp (incr_C line i) s (fun _ s' =>
    s' = St (Circle_D s)
            (<[Z.to_nat i := C_PP s !!! Z.to_nat i + 1]> (C_PP s))
            (total_perms s)
            (Ev line ArrC Wr i :: Ev line ArrC Rd i :: log s)).
Proof.
  intros Hi. unfold incr_C.
  destruct (rd_is_Some (C_PP s) i Hi) as [c Hc].
  apply wp_bind. eapply (wp_rdC _ _ _ _ c); [done|]. cbv beta.
  eapply wp_wrC; simpl; [lia|].
  by rewrite (rd_total _ _ _ Hc).
Qed.

Lemma swap_cells_same P i : (Z.to_nat i < length P)%nat -> swap_cells P i i = P.
Proof.
  intros Hi. unfold swap_cells. rewrite list_insert_insert_eq.
  apply list_insert_id. by apply list_lookup_lookup_total_lt.
Qed.

Lemma swap_cells_length P i t : length (swap_cells P i t) = length P.
Proof. unfold swap_cells. by rewrite !length_insert. Qed.

(** A swap below [n] permutes the first [n] cells and keeps the rest. *)
Lemma swap_cells_take P i t n :
  (Z.to_nat i < n)%nat -> (Z.to_nat t < n)%nat -> (n <= length P)%nat ->
  take n (swap_cells P i t) ≡ₚ take n P.
Proof.
  intros Hi Ht Hn. unfold swap_cells.
  rewrite !take_insert_lt by done.
  apply Permutation_insert_swap.
  - rewrite lookup_take_lt by done. apply list_lookup_lookup_total_lt. lia.
  - rewrite lookup_take_lt by done. apply list_lookup_lookup_total_lt. lia.
Qed.

Lemma swap_cells_rd P i t j :
  0 <= i < j -> 0 <= t < j -> rd (swap_cells P i t) j = rd P j.
Proof.
  intros Hi Ht. unfold swap_cells, rd. case_decide; [|done].
  rewrite !list_lookup_insert_ne by lia. done.
Qed.

Section Advance.

Variable N : Z.
Hypothesis N_ge_3 : 3 <= N.

Lemma carry_loop_spec k s :
  carry_at k (C_PP s) ->
  (k <= Z.to_nat (N - 3))%nat ->
  Z.of_nat (length (C_PP s)) = N ->
  Z.of_nat (length (Circle_D s)) = 3 * N ->
  wp (carry_loop k) s (fun i s' =>
    (i, Circle_D s', C_PP s') = carry_rule k (Circle_D s) (C_PP s) /\
    Circle_D s' = Circle_D s /\
    length (C_PP s') = length (C_PP s) /\
    total_perms s' = total_perms s /\
    log_ext (ev_ok N) (log s) (log s') /\
    0 <= i <= Z.of_nat k /\
    counter_after (C_PP s') /\
    1 <= C_PP s' !!! Z.to_nat i /\
    (i <> 0 -> C_PP s' !!! 0%nat = 0) /\
    val (C_PP s') (Z.to_nat (N - 3)) = val (C_PP s) (Z.to_nat (N - 3))).
Proof.
  revert s. induction k as [|k IH]; intros s (Hge & Hle & Hk & H0) Hkm HlC HlD.
  - simpl. apply wp_ret. simpl in Hk. change (Z.to_nat 0) with 0%nat.
    split_and!; try done; try lia.
    + apply log_ext_refl.
    + split_and!; [done| |lia]. intros j Hj. apply Hle; lia.
  - cbn [carry_loop carry_rule].
    set (i := Z.of_nat (S k)) in *.
    assert (Hi : 0 <= i < Z.of_nat (length (C_PP s))) by lia.
    destruct (rd_is_Some (C_PP s) i Hi) as [c Hc].
    pose proof (rd_total _ _ _ Hc) as Hc'.
    replace (Z.to_nat i) with (S k) in Hc' by lia.
    apply wp_bind. eapply (wp_rdC _ _ _ _ c); [done|]. cbv beta.
    rewrite Hc'. destruct (Z.ltb_spec i c) as [Hlt|Hnlt].
    + rewrite Hc' in Hk. replace c with (i + 1) in * by lia.
      apply wp_bind. apply wp_bind.
      eapply (wp_rdC _ _ _ _ (i + 1)); [done|]. cbv beta.
      apply wp_ret. replace (i + 1 - 1) with i by lia.
      apply wp_bind. eapply wp_mono; [apply swap_P1_spec; simpl; lia|].
      intros [] s1 ->. cbv beta.
      apply wp_bind. eapply wp_wrC; simpl; [lia|].
      apply wp_bind. eapply wp_mono;
        [apply incr_C_spec; simpl; rewrite length_insert; lia|].
      intros [] s2 ->. cbv beta. simpl.
      rewrite swap_cells_same by lia.
      replace (Z.to_nat i) with (S k) by lia.
      replace (Z.to_nat (i - 1)) with k by lia.
      eapply wp_mono.
      * apply IH; simpl; [|lia|rewrite !length_insert; lia|lia].
        repeat split.
        -- intros j. destruct (decide (j = k)) as [->|Hjk].
           ++ rewrite list_lookup_total_insert_eq
                by (rewrite length_insert; lia).
              rewrite list_lookup_total_insert_ne by lia.
              pose proof (Hge k). lia.
           ++ rewrite list_lookup_total_insert_ne by lia.
              destruct (decide (j = S k)) as [->|Hjk'].
              ** rewrite list_lookup_total_insert_eq by lia. lia.
              ** rewrite list_lookup_total_insert_ne by lia. apply Hge.
        -- intros j Hj0 Hjk.
           rewrite list_lookup_total_insert_ne by lia.
           destruct (decide (j = S k)) as [->|Hjk'].
           ++ rewrite list_lookup_total_insert_eq by lia. lia.
           ++ rewrite list_lookup_total_insert_ne by lia. by apply Hle.
        -- rewrite list_lookup_total_insert_eq
             by (rewrite length_insert; lia).
           rewrite list_lookup_total_insert_ne by lia.
           pose proof (Hge k). lia.
        -- rewrite list_lookup_total_insert_eq
             by (rewrite length_insert; lia).
           rewrite list_lookup_total_insert_ne by lia.
           destruct (decide (k = 0%nat)) as [->|Hk0].
           ++ rewrite H0 by lia. lia.
           ++ pose proof (Hle k Hk0). lia.
        -- intros Hk0. rewrite !list_lookup_total_insert_ne by lia.
           apply H0. lia.
      * intros i' s' (Hex & HD & HlC' & HT & HL & Hi' & Hafter & H1 & H0' & Hval).
        simpl in *. repeat split; try done; try lia.
        -- rewrite !length_insert in HlC'. done.
        -- eapply log_ext_trans; [|exact HL].
           repeat apply log_ext_cons; try apply log_ext_refl;
             unfold ev_ok; simpl; repeat split; intros; lia.
        -- apply Hafter.
        -- apply Hafter.
        -- apply Hafter.
        -- rewrite Hval. apply val_carry; [lia|lia|].
           rewrite Hc'. unfold i. lia.
    + apply wp_ret. simpl. repeat split; try done; try lia.
      * apply log_ext_cons; [apply log_ext_refl|].
        unfold ev_ok; simpl. lia.
      * intros j Hj. destruct (decide (j = S k)) as [->|Hne].
        -- rewrite Hc'. unfold i in Hnlt. lia.
        -- by apply Hle.
      * replace (Z.to_nat i) with (S k) by lia. lia.
Qed.

Lemma final_swap_spec i s :
  0 <= i <= N - 3 ->
  Z.of_nat (length (C_PP s)) = N ->
  Z.of_nat (length (Circle_D s)) = 3 * N ->
  counter_after (C_PP s) ->
  1 <= C_PP s !!! Z.to_nat i ->
  (i <> 0 -> C_PP s !!! 0%nat = 0) ->
  wp (final_swap i) s (fun _ s' =>
    Circle_D s' = last_swap_rule i (Circle_D s) (C_PP s) /\
    C_PP s' = C_PP s /\ total_perms s' = total_perms s /\
    log_ext (ev_ok N) (log s) (log s') /\
    length (Circle_D s') = length (Circle_D s) /\
    take (Z.to_nat (N - 2)) (Circle_D s') ≡ₚ
      take (Z.to_nat (N - 2)) (Circle_D s) /\
    (forall j, N - 2 <= j -> rd (Circle_D s') j = rd (Circle_D s) j)).
Proof.
  intros Hi HlC HlD (Hge & Hle & H01) H1 H0.
  unfold final_swap, last_swap_rule.
  destruct (rd_is_Some (C_PP s) 0) as [c0 Hc0]; [lia|].
  pose proof (rd_total _ _ _ Hc0) as Hc0'. change (Z.to_nat 0) with 0%nat in Hc0'.
  apply wp_bind. eapply (wp_rdC _ _ _ _ c0); [done|]. cbv beta.
  rewrite Hc0'. destruct (Z.ltb_spec c0 1) as [Hlt|Hge1].
  - assert (Hi0 : i <> 0).
    { intros ->. change (Z.to_nat 0) with 0%nat in H1. lia. }
    destruct (rd_is_Some (C_PP s) i) as [c Hc]; [simpl; lia|].
    pose proof (rd_total _ _ _ Hc) as Hc'.
    apply wp_bind. apply wp_bind. eapply (wp_rdC _ _ _ _ c); [done|].
    cbv beta. apply wp_ret. rewrite Hc'.
    assert (Hci : c <= i).
    { rewrite <- Hc'. etrans; [apply Hle; lia|]. lia. }
    rewrite Hc' in H1.
    destruct (Z.leb_spec 0 (c - 1)) as [_|Hneg]; [|lia].
    eapply wp_mono; [apply swap_P1_spec; simpl; lia|].
    intros [] s' ->. simpl. split_and!; try done.
    + repeat apply log_ext_cons; try apply log_ext_refl;
        unfold ev_ok; simpl; split_and!; intros;
        first [lia | discriminate | done].
    + apply swap_cells_length.
    + apply swap_cells_take; lia.
    + intros j Hj. apply swap_cells_rd; lia.
  - apply wp_ret. simpl. split_and!; try done.
    apply log_ext_cons; [apply log_ext_refl|]. unfold ev_ok; simpl. lia.
Qed.

(** One call of the base advance from a valid counter: it never leaves
    the arrays, computes what the rule computes, adds one to the
    counter, permutes [P1[0..N-3]] and stores [N-1] in [P1[N-1]]. *)
Lemma advance_base_spec s :
  counter_ok (C_PP s) ->
  Z.of_nat (length (C_PP s)) = N ->
  Z.of_nat (length (Circle_D s)) = 3 * N ->
  wp (advance_base N) s (fun _ s' =>
    (Circle_D s', C_PP s') = advance_base_rule N (Circle_D s) (C_PP s) /\
    length (Circle_D s') = length (Circle_D s) /\
    length (C_PP s') = length (C_PP s) /\
    counter_after (C_PP s') /\
    val (C_PP s') (Z.to_nat (N - 3)) = val (C_PP s) (Z.to_nat (N - 3)) + 1 /\
    take (Z.to_nat (N - 2)) (Circle_D s') ≡ₚ
      take (Z.to_nat (N - 2)) (Circle_D s) /\
    (forall j, N - 2 <= j ->
       rd (Circle_D s') j =
         if decide (j = N - 1) then Some (N - 1) else rd (Circle_D s) j) /\
    total_perms s' = total_perms s /\
    log_ext (ev_ok N) (log s) (log s')).
Proof.
  intros Hok HlC HlD. unfold advance_base, advance_base_rule.
  apply wp_bind. eapply wp_mono; [apply incr_C_spec; lia|].
  intros [] s1 ->. cbv beta.
  set (C1 := <[Z.to_nat (N - 3) := C_PP s !!! Z.to_nat (N - 3) + 1]> (C_PP s)).
  apply wp_bind. eapply wp_mono.
  { apply carry_loop_spec; simpl; [|lia|unfold C1; rewrite length_insert; lia|lia].
    unfold C1. split_and!.
    - intros j. destruct (decide (j = Z.to_nat (N - 3))) as [->|Hne].
      + rewrite list_lookup_total_insert_eq by lia.
        pose proof (Hok (Z.to_nat (N - 3))). lia.
      + rewrite list_lookup_total_insert_ne by lia. apply Hok.
    - intros j _ Hne. rewrite list_lookup_total_insert_ne by lia. apply Hok.
    - rewrite list_lookup_total_insert_eq by lia.
      pose proof (Hok (Z.to_nat (N - 3))). lia.
    - rewrite list_lookup_total_insert_eq by lia.
      pose proof (Hok (Z.to_nat (N - 3))). lia.
    - intros Hne. rewrite list_lookup_total_insert_ne by lia.
      pose proof (Hok 0%nat). lia. }
  intros i s2 (Hex & HD2 & HlC2 & HT2 & HL2 & Hi & Hafter & H1 & H0 & Hval).
  simpl in *. rewrite <- Hex.
  apply wp_bind. eapply wp_mono.
  { apply final_swap_spec; try done; try lia.
    - rewrite HlC2. unfold C1. rewrite length_insert. lia.
    - rewrite HD2. lia. }
  intros [] s3 (HD3 & HC3 & HT3 & HL3 & HlD3 & Hperm & Hfr). cbv beta.
  unfold P1, lastIndex. rewrite Z.add_0_l.
  eapply wp_wrD; [rewrite HlD3, HD2; lia|]. simpl.
  rewrite HD2 in *. split_and!.
  - by rewrite HD3, HC3.
  - rewrite length_insert. done.
  - rewrite HC3, HlC2. unfold C1. by rewrite length_insert.
  - by rewrite HC3.
  - rewrite HC3, Hval. unfold C1. apply val_incr. lia.
  - rewrite take_insert_ge by lia. done.
  - intros j Hj. rewrite rd_insert by lia.
    case_decide; [done|]. by apply Hfr.
  - congruence.
  - eapply log_ext_trans; [|apply log_ext_cons; [exact HL3|]].
    + eapply log_ext_trans; [|exact HL2].
      repeat apply log_ext_cons; try apply log_ext_refl;
        unfold ev_ok; simpl; lia.
    + unfold ev_ok; simpl; split_and!; intros; first [lia | discriminate].
Qed.

End Advance.

(** ** Windows of the buffer *)

Lemma take_rd_ext a b n :
  (forall i, 0 <= i < Z.of_nat n -> rd a i = rd b i) -> take n a = take n b.
Proof.
  intros H. apply list_eq. intros j.
  destruct (decide (j < n)%nat) as [Hj|Hj].
  - rewrite !lookup_take_lt by done. rewrite <- !rd_lookup. apply H. lia.
  - rewrite !lookup_take_ge by lia. done.
Qed.

Lemma window_lookup s off len (j : nat) :
  0 <= off -> (j < Z.to_nat len)%nat ->
  window s off len !! j = rd (Circle_D s) (off + Z.of_nat j).
Proof.
  intros Hoff Hj. unfold window. rewrite lookup_take_lt by done.
  rewrite lookup_drop. unfold rd. rewrite decide_True by lia.
  f_equal. lia.
Qed.

(** Two windows with the same cells are equal. *)
Lemma window_ext s1 s2 off1 off2 len :
  0 <= off1 -> 0 <= off2 ->
  (forall j, 0 <= j < len ->
     rd (Circle_D s1) (off1 + j) = rd (Circle_D s2) (off2 + j)) ->
  window s1 off1 len = window s2 off2 len.
Proof.
  intros H1 H2 H. apply list_eq. intros j.
  destruct (decide (j < Z.to_nat len)%nat) as [Hj|Hj].
  - rewrite !window_lookup by done. apply H. lia.
  - unfold window. rewrite !lookup_take_ge by lia. done.
Qed.

Lemma take_seqZ_id a n :
  0 <= n ->
  (forall i, 0 <= i < n -> rd a i = Some i) ->
  take (Z.to_nat n) a = seqZ 0 n.
Proof.
  intros Hn H. apply list_eq. intros j.
  destruct (decide (Z.of_nat j < n)) as [Hj|Hj].
  - rewrite lookup_take_lt by lia. rewrite lookup_seqZ_lt by done.
    rewrite <- rd_lookup, H by lia. f_equal.
  - rewrite lookup_take_ge by lia. by rewrite lookup_seqZ_ge by lia.
Qed.

(** The invariant makes [P1] a permutation of the labels. *)
Lemma Inv_permutation N k s :
  3 <= N -> Inv N k s -> is_permutation N (P1_of N s).
Proof.
  intros HN (HlD & _ & _ & _ & Hperm & H2 & H1 & _).
  unfold is_permutation, P1_of, window. change (Z.to_nat 0) with 0%nat.
  rewrite drop_0.
  replace (Z.to_nat N) with (S (S (Z.to_nat (N - 2)))) by lia.
  replace N with (Z.of_nat (S (S (Z.to_nat (N - 2))))) at 2 by lia.
  rewrite (take_S_r _ _ (N - 1)).
  2:{ rewrite <- rd_lookup, <- H1. f_equal. lia. }
  rewrite (take_S_r _ _ (N - 2)).
  2:{ rewrite <- rd_lookup, <- H2. f_equal. lia. }
  rewrite !seqZ_S. rewrite Hperm.
  replace (Z.of_nat (Z.to_nat (N - 2))) with (N - 2) by lia.
  replace (0 + (N - 2)) with (N - 2) by lia.
  replace (0 + Z.of_nat (S (Z.to_nat (N - 2)))) with (N - 1) by lia.
  done.
Qed.

(** ** One outer iteration *)

Lemma wp_unit_elim (m : M unit) s Q :
  wp m s Q -> exists s', m s = Some (tt, s') /\ Q tt s'.
Proof. intros (a & s' & H & HQ)%wp_elim. destruct a. eauto. Qed.

Lemma bind_Some {A B} (m : M A) (f : A -> M B) s a s' :
  m s = Some (a, s') -> bind m f s = f a s'.
Proof. unfold bind. by intros ->. Qed.

Lemma lookup_total_replicate_Z n (j : nat) :
  0 <= replicate n 0 !!! j <= 1 /\ ((j < n)%nat -> replicate n 0 !!! j = 0).
Proof.
  destruct (decide (j < n)%nat) as [Hj|Hj].
  - rewrite lookup_total_replicate_2 by done. lia.
  - rewrite list_lookup_total_alt.
    rewrite (proj1 (lookup_replicate_None n 0 j)) by lia.
    simpl. split; [done|lia].
Qed.

Lemma val_zero C j :
  (forall i : nat, (i <= j)%nat -> C !!! i = 0) -> val C j = 0.
Proof.
  induction j as [|j IH]; intros H; simpl.
  - apply H. lia.
  - rewrite IH by (intros; apply H; lia). rewrite (H (S j)) by lia. lia.
Qed.

Section Iteration.

Variable N : Z.
Hypothesis N_ge_3 : 3 <= N.

Lemma zfact_iterations :
  Z.of_nat (iterations N) = zfact (S (Z.to_nat (N - 3))).
Proof.
  unfold iterations, zfact. f_equal. f_equal. lia.
Qed.

(** Before the last state, the leading digit is 0. *)
Lemma Inv_C0_zero k s :
  Inv N k s -> (k < iterations N)%nat -> C_PP s !!! 0%nat = 0.
Proof.
  intros (_ & _ & (Hge & Hle & H1) & Hval & _) Hk.
  pose proof (val_lower (C_PP s) (Z.to_nat (N - 3)) Hge) as Hlo.
  rewrite Hval, <- zfact_iterations in Hlo.
  pose proof (Hge 0%nat). nia.
Qed.

(** After [(N-2)!] iterations the leading digit is 1. *)
Lemma Inv_C0_one s :
  Inv N (iterations N) s -> C_PP s !!! 0%nat = 1.
Proof.
  intros (_ & _ & (Hge & Hle & H1) & Hval & _).
  pose proof (val_upper (C_PP s) (Z.to_nat (N - 3)) Hle) as Hup.
  rewrite Hval, <- zfact_iterations in Hup.
  pose proof (Hge 0%nat). nia.
Qed.

Lemma Inv_counter_ok k s :
  Inv N k s -> C_PP s !!! 0%nat = 0 -> counter_ok (C_PP s).
Proof.
  intros (_ & _ & (Hge & Hle & H1) & _) H0 j.
  destruct (decide (j = 0%nat)) as [->|Hj]; [lia|].
  split; [apply Hge|by apply Hle].
Qed.

(** Line 80 establishes the invariant. *)
Lemma init_P1_spec :
  wp (init_P1 N) (init_state N) (fun _ s => Inv N 0 s).
Proof.
  unfold init_P1, P1. eapply wp_mono.
  - apply (wp_for_loop (fun j s =>
      0 <= j /\
      Z.of_nat (length (Circle_D s)) = 3 * N /\
      (forall i, 0 <= i < j -> rd (Circle_D s) i = Some i) /\
      C_PP s = replicate (Z.to_nat N) 0 /\
      total_perms s = 0 /\
      Forall (ev_ok N) (log s))).
    + simpl. rewrite length_replicate. split_and!; try done; try lia.
    + intros j s Hj (_ & Hl & HD & HC & HT & HL).
      rewrite Z.add_0_l. eapply wp_wrD; [lia|]. simpl.
      rewrite length_insert. split_and!; try done; try lia.
      * intros i Hi. rewrite rd_insert by lia.
        case_decide; [by subst|]. apply HD. lia.
      * constructor; [|done]. unfold ev_ok; simpl.
        split_and!; intros; first [lia | discriminate].
  - intros [] s (_ & Hl & HD & HC & HT & HL). rewrite Z.add_0_l in HD.
    rewrite Z2Nat.id in HD by lia.
    unfold Inv. rewrite HC, HT, length_replicate. split_and!; try done.
    + lia.
    + split_and!.
      * intros j. pose proof (lookup_total_replicate_Z (Z.to_nat N) j). lia.
      * intros j Hj. pose proof (lookup_total_replicate_Z (Z.to_nat N) j). lia.
      * pose proof (lookup_total_replicate_Z (Z.to_nat N) 0). lia.
    + apply val_zero. intros i Hi. apply lookup_total_replicate_Z. lia.
    + rewrite (take_seqZ_id _ (N - 2)); [done|lia|].
      intros i Hi. apply HD. lia.
    + apply HD. lia.
    + apply HD. lia.
Qed.

(** Lines 85-113 once, from an invariant state whose condition holds:
    every phase succeeds and the invariant holds again. *)
Lemma body_step k s0 :
  Inv N k s0 -> C_PP s0 !!! 0%nat = 0 ->
  exists s1 s2 s3,
    let s0' := St (Circle_D s0) (C_PP s0) (total_perms s0)
                  (Ev 85 ArrC Rd 0 :: log s0) in
    rdC 85 0 s0 = Some (0, s0') /\
    sync_mirror N s0' = Some (tt, s1) /\
    burst N s1 = Some (tt, s2) /\
    advance_base N s2 = Some (tt, s3) /\
    synced N s0' s1 /\ bursted N s1 s2 /\ advanced N s2 s3 /\
    Inv N (S k) s3.
Proof.
  intros HI H0. pose proof (Inv_counter_ok _ _ HI H0) as Hok.
  destruct HI as (HlD & HlC & Hafter & Hval & Hperm & Hd2 & Hd1 & HT & HL).
  set (s0' := St (Circle_D s0) (C_PP s0) (total_perms s0)
                 (Ev 85 ArrC Rd 0 :: log s0)).
  destruct (wp_unit_elim _ s0' _ (sync_mirror_spec N ltac:(lia) s0' HlD))
    as (s1 & Hs1 & Hsync).
  pose proof Hsync as (Hl1 & HD1 & HC1 & HT1 & HL1).
  assert (HlD1 : Z.of_nat (length (Circle_D s1)) = 3 * N)
    by (rewrite Hl1; exact HlD).
  destruct (wp_unit_elim _ s1 _ (burst_spec N ltac:(lia) s1 HlD1))
    as (s2 & Hs2 & Hburst).
  pose proof Hburst as (Hl2 & HD2 & HC2 & HT2 & HL2).
  assert (HlD2 : Z.of_nat (length (Circle_D s2)) = 3 * N)
    by (rewrite Hl2; exact HlD1).
  assert (HC20 : C_PP s2 = C_PP s0) by (rewrite HC2, HC1; done).
  assert (Hok2 : counter_ok (C_PP s2)) by (rewrite HC20; done).
  assert (HlC2 : Z.of_nat (length (C_PP s2)) = N) by (rewrite HC20; done).
  destruct (wp_unit_elim _ s2 _ (advance_base_spec N N_ge_3 s2 Hok2 HlC2 HlD2))
    as (s3 & Hs3 & Hadv).
  pose proof Hadv as (Hex & Hl3 & HlC3 & Hafter3 & Hval3 & Hperm3 & Hfr3 & HT3 & HL3).
  exists s1, s2, s3. cbv zeta. fold s0'. split_and!; try done.
  - unfold rdC. replace (rd (C_PP s0) 0) with (Some 0); [done|].
    symmetry. unfold rd. rewrite decide_True by lia.
    change (Z.to_nat 0) with 0%nat. rewrite <- H0.
    apply list_lookup_lookup_total_lt. lia.
  - unfold Inv. split_and!; try done.
    + lia.
    + lia.
    + rewrite Hval3, HC20, Hval. lia.
    + rewrite Hperm3.
      rewrite (take_rd_ext (Circle_D s2) (Circle_D s0)); [exact Hperm|].
      intros i Hi. rewrite HD2, !HD1.
      repeat case_decide; try lia. done.
    + rewrite Hfr3 by lia. rewrite decide_False by lia.
      rewrite HD2, !HD1. repeat case_decide; try lia. done.
    + rewrite Hfr3 by lia. by rewrite decide_True by lia.
    + rewrite HT3, HT2, HT1. simpl. rewrite HT.
      rewrite Z.add_mod_idemp_l by done. f_equal. lia.
    + eapply log_ext_Forall; [exact HL3|].
      eapply log_ext_Forall;
        [eapply log_ext_weaken; [|exact HL2]; intros e; apply burst_ev_ok; lia|].
      eapply log_ext_Forall; [exact HL1|].
      simpl. constructor; [|done]. unfold ev_ok; simpl. lia.
Qed.

Lemma Inv_log k s e :
  Inv N k s -> ev_ok N e ->
  Inv N k (St (Circle_D s) (C_PP s) (total_perms s) (e :: log s)).
Proof.
  intros (H1 & H2 & H3 & H4 & H5 & H6 & H7 & H8 & H9) He.
  unfold Inv; simpl. split_and!; try done. by constructor.
Qed.

Lemma ev_ok_cond : ev_ok N (Ev 85 ArrC Rd 0).
Proof. unfold ev_ok; simpl. lia. Qed.

Lemma Inv_rd_C0 k s :
  Inv N k s -> rd (C_PP s) 0 = Some (C_PP s !!! 0%nat).
Proof.
  intros (_ & HlC & _). unfold rd. rewrite decide_True by lia.
  change (Z.to_nat 0) with 0%nat. apply list_lookup_lookup_total_lt. lia.
Qed.

(** The states of iteration [k]: at the loop condition, after the
    synchronisation, after the burst and at the next loop condition. *)
Lemma iteration_states k s0 :
  loop_head N k (init_state N) = Some (tt, s0) ->
  Inv N k s0 -> (k < iterations N)%nat ->
  exists s0' s1 s2 s3,
    Circle_D s0' = Circle_D s0 /\ C_PP s0' = C_PP s0 /\
    total_perms s0' = total_perms s0 /\
    state_at N k AtHead = Some s0 /\
    state_at N k AfterSync = Some s1 /\
    state_at N k AfterBurst = Some s2 /\
    loop_head N (S k) (init_state N) = Some (tt, s3) /\
    advance_base N s2 = Some (tt, s3) /\
    synced N s0' s1 /\ bursted N s1 s2 /\ advanced N s2 s3 /\
    Inv N (S k) s3.
Proof.
  intros Hhead HI Hk.
  pose proof (Inv_C0_zero _ _ HI Hk) as H0.
  destruct (body_step k s0 HI H0) as (s1 & s2 & s3 & Hb). cbv zeta in Hb.
  destruct Hb as (Hrd & Hs1 & Hs2 & Hs3 & Hsync & Hburst & Hadv & HI3).
  set (s0' := St (Circle_D s0) (C_PP s0) (total_perms s0)
                 (Ev 85 ArrC Rd 0 :: log s0)) in *.
  assert (Henter : enter_loop s0 = Some (tt, s0')).
  { unfold enter_loop. by rewrite (bind_Some _ _ _ _ _ Hrd). }
  exists s0', s1, s2, s3. split_and!; try done.
  - unfold state_at. by rewrite Hhead.
  - unfold state_at. rewrite (bind_Some _ _ _ _ _ Hhead).
    rewrite (bind_Some _ _ _ _ _ Henter). by rewrite Hs1.
  - unfold state_at. rewrite (bind_Some _ _ _ _ _ Hhead).
    rewrite (bind_Some _ _ _ _ _ Henter).
    rewrite (bind_Some _ _ _ _ _ Hs1). by rewrite Hs2.
  - cbn [loop_head]. rewrite (bind_Some _ _ _ _ _ Hhead).
    rewrite (bind_Some _ _ _ _ _ Henter). unfold outer_body.
    rewrite (bind_Some _ _ _ _ _ Hs1).
    by rewrite (bind_Some _ _ _ _ _ Hs2).
Qed.

(** Every loop head up to the [(N-2)!]-th exists and satisfies the
    invariant. *)
Lemma head_inv k :
  (k <= iterations N)%nat ->
  exists s, loop_head N k (init_state N) = Some (tt, s) /\ Inv N k s.
Proof.
  induction k as [|k IH]; intros Hk.
  - destruct (wp_unit_elim _ _ _ init_P1_spec) as (s & Hs & HI). eauto.
  - destruct IH as (s0 & Hs0 & HI0); [lia|].
    destruct (iteration_states k s0 Hs0 HI0) as (? & ? & ? & s3 & H); [lia|].
    exists s3. split; apply H.
Qed.

(** The loop of line 85 from an invariant state: it runs the remaining
    iterations, or as many as the fuel allows. *)
Lemma while_loop_spec fuel k s :
  Inv N k s -> (k <= iterations N)%nat ->
  exists b s',
    while_loop N fuel s = Some (b, s') /\
    if decide (k + fuel < iterations N)%nat
    then b = false /\ Inv N (k + fuel) s'
    else b = true /\ Inv N (iterations N) s'.
Proof.
  revert k s. induction fuel as [|fuel IH]; intros k s HI Hk.
  - destruct (decide (k < iterations N)%nat) as [Hlt|Hge].
    + pose proof (Inv_C0_zero _ _ HI Hlt) as H0.
      pose proof (Inv_rd_C0 _ _ HI) as Hrd. rewrite H0 in Hrd.
      eexists false, _. split.
      * simpl. unfold bind, rdC. rewrite Hrd. simpl. reflexivity.
      * rewrite decide_True by lia. split; [done|].
        replace (k + 0)%nat with k by lia.
        apply Inv_log; [done|apply ev_ok_cond].
    + assert (k = iterations N) by lia. subst k.
      pose proof (Inv_C0_one _ HI) as H1.
      pose proof (Inv_rd_C0 _ _ HI) as Hrd. rewrite H1 in Hrd.
      eexists true, _. split.
      * simpl. unfold bind, rdC. rewrite Hrd. simpl. reflexivity.
      * rewrite decide_False by lia. split; [done|].
        apply Inv_log; [done|apply ev_ok_cond].
  - destruct (decide (k < iterations N)%nat) as [Hlt|Hge].
    + pose proof (Inv_C0_zero _ _ HI Hlt) as H0.
      destruct (body_step k s HI H0) as (s1 & s2 & s3 & Hb). cbv zeta in Hb.
      destruct Hb as (Hrd & Hs1 & Hs2 & Hs3 & _ & _ & _ & HI3).
      destruct (IH (S k) s3 HI3) as (b & s' & Hw & Hres); [lia|].
      exists b, s'. split.
      * cbn [while_loop]. rewrite (bind_Some _ _ _ _ _ Hrd).
        change (0 <? 1) with true. cbv iota. unfold outer_body.
        rewrite (bind_Some (sync_mirror N;;; burst N;;; advance_base N)
                   _ _ tt s3); [done|].
        rewrite (bind_Some _ _ _ _ _ Hs1).
        by rewrite (bind_Some _ _ _ _ _ Hs2).
      * replace (k + S fuel)%nat with (S k + fuel)%nat by lia. done.
    + assert (k = iterations N) by lia. subst k.
      pose proof (Inv_C0_one _ HI) as H1.
      pose proof (Inv_rd_C0 _ _ HI) as Hrd. rewrite H1 in Hrd.
      eexists true, _. split.
      * cbn [while_loop]. unfold bind at 1. unfold rdC. rewrite Hrd.
        simpl. reflexivity.
      * rewrite decide_False by lia. split; [done|].
        apply Inv_log; [done|apply ev_ok_cond].
Qed.

(** The whole of lines 73-114 with [fuel] iterations allowed. *)
Lemma run_spec fuel :
  exists b s,
    run N fuel = Some (b, s) /\
    if decide (fuel < iterations N)%nat
    then b = false /\ Inv N fuel s
    else b = true /\ Inv N (iterations N) s.
Proof.
  destruct (wp_unit_elim _ _ _ init_P1_spec) as (s0 & Hs0 & HI0).
  destruct (while_loop_spec fuel 0 s0 HI0) as (b & s & Hw & Hres); [lia|].
  exists b, s. split; [|done].
  unfold run. by rewrite (bind_Some _ _ _ _ _ Hs0).
Qed.

(** [(N-2)! * N * (N-1) = N!]. *)
Lemma iterations_total :
  Z.of_nat (iterations N) * (N * (N - 1)) = zfact (Z.to_nat N).
Proof.
  unfold iterations. fold (zfact (Z.to_nat (N - 2))).
  replace (Z.to_nat N) with (S (S (Z.to_nat (N - 2)))) by lia.
  rewrite !zfact_S. lia.
Qed.

End Iteration.

(** ** The trailing window is never read *)

Section Simulation.

Variable N : Z.
Hypothesis N_ge_3 : 3 <= N.

Lemma follows_ret {A} (a : A) : follows N (ret a) (ret a).
Proof.
  intros s a' s1 [= <- <-]. split; [by exists []|].
  intros s' Hsim _. by exists s'.
Qed.

Lemma follows_bind {A B} (m m' : M A) (f f' : A -> M B) :
  follows N m m' -> (forall a, follows N (f a) (f' a)) ->
  follows N (bind m f) (bind m' f').
Proof.
  intros Hm Hf s b s2 Hrun. unfold bind in Hrun.
  destruct (m s) as [[a s1]|] eqn:E1; [|done].
  destruct (Hm _ _ _ E1) as ((ev1 & Hl1) & Hsim1).
  destruct (Hf a _ _ _ Hrun) as ((ev2 & Hl2) & Hsim2).
  split.
  - exists (ev2 ++ ev1). by rewrite Hl2, Hl1, app_assoc.
  - intros s' Hsim Hlog.
    destruct (Hsim1 s' Hsim) as (s1' & E1' & Hs1).
    { rewrite Hl2 in Hlog. by apply Forall_app in Hlog as [_ ?]. }
    destruct (Hsim2 s1' Hs1 Hlog) as (s2' & E2' & Hs2).
    exists s2'. split; [|done]. unfold bind. by rewrite E1'.
Qed.

Lemma follows_rdD line i : follows N (rdD line i) (rdD line i).
Proof.
  intros s v s1 Hrun. unfold rdD in Hrun.
  destruct (rd (Circle_D s) i) as [v'|] eqn:E; [|done].
  injection Hrun as <- <-. split; [by eexists [_]|].
  intros s' (HlD & Hl & HC & HT & HD) Hlog. simpl in Hlog.
  apply Forall_cons in Hlog as [Hev _].
  unfold rdD. rewrite HD, E by (by apply Hev).
  eexists. split; [done|]. by split_and!.
Qed.

Lemma follows_wrD line i v : follows N (wrD line i v) (wrD line i v).
Proof.
  intros s [] s1 Hrun. unfold wrD in Hrun.
  destruct (wr (Circle_D s) i v) as [d|] eqn:E; [|done].
  injection Hrun as <-. unfold wr in E. case_decide as Hi; [|done].
  injection E as <-. split; [by eexists [_]|].
  intros s' (HlD & Hl & HC & HT & HD) _.
  unfold wrD. rewrite wr_Some by (rewrite Hl; done).
  eexists. split; [done|]. unfold sim. simpl. rewrite !length_insert.
  split_and!; try done.
  intros j Hj. rewrite !rd_insert by (rewrite ?Hl; done).
  case_decide; [done|]. by apply HD.
Qed.

Lemma follows_rdC line i : follows N (rdC line i) (rdC line i).
Proof.
  intros s v s1 Hrun. unfold rdC in Hrun.
  destruct (rd (C_PP s) i) as [v'|] eqn:E; [|done].
  injection Hrun as <- <-. split; [by eexists [_]|].
  intros s' (HlD & Hl & HC & HT & HD) _.
  unfold rdC. rewrite HC, E. eexists. split; [done|]. by split_and!.
Qed.

Lemma follows_wrC line i v : follows N (wrC line i v) (wrC line i v).
Proof.
  intros s [] s1 Hrun. unfold wrC in Hrun.
  destruct (wr (C_PP s) i v) as [c|] eqn:E; [|done].
  injection Hrun as <-. split; [by eexists [_]|].
  intros s' (HlD & Hl & HC & HT & HD) _.
  unfold wrC. rewrite HC, E. eexists. split; [done|]. by split_and!.
Qed.

Lemma follows_add_total n : follows N (add_total n) (add_total n).
Proof.
  intros s [] s1 [= <-]. split; [by exists []|].
  intros s' (HlD & Hl & HC & HT & HD) _.
  eexists. split; [done|]. simpl. rewrite HT. by split_and!.
Qed.

Lemma follows_for_loop n j body :
  (forall k, follows N (body k) (body k)) ->
  follows N (for_loop n j body) (for_loop n j body).
Proof.
  intros Hbody. revert j. induction n as [|n IH]; intros j; simpl.
  - apply follows_ret.
  - apply follows_bind; [apply Hbody|]. intros _. apply IH.
Qed.

Ltac follows_step :=
  first
    [ apply follows_ret | apply follows_rdD | apply follows_wrD
    | apply follows_rdC | apply follows_wrC | apply follows_add_total
    | apply follows_bind; [|intros ?]
    | apply follows_for_loop; intros ? ].

Lemma follows_memcpy line dst src n :
  follows N (memcpy line dst src n) (memcpy line dst src n).
Proof. unfold memcpy. repeat follows_step. Qed.

Lemma follows_burst : follows N (burst N) (burst N).
Proof. unfold burst, burst_step. repeat follows_step. Qed.

Lemma follows_swap_P1 line i t :
  follows N (swap_P1 line i t) (swap_P1 line i t).
Proof. unfold swap_P1. repeat follows_step. Qed.

Lemma follows_incr_C line i : follows N (incr_C line i) (incr_C line i).
Proof. unfold incr_C. repeat follows_step. Qed.

Lemma follows_carry_loop k : follows N (carry_loop k) (carry_loop k).
Proof.
  induction k as [|k IH]; cbn [carry_loop]; [apply follows_ret|].
  apply follows_bind; [apply follows_rdC|]. intros c.
  destruct (Z.of_nat (S k) <? c); [|apply follows_ret].
  repeat first [ apply follows_swap_P1 | apply follows_incr_C
               | exact IH | follows_step ].
Qed.

Lemma follows_final_swap i : follows N (final_swap i) (final_swap i).
Proof.
  unfold final_swap. apply follows_bind; [apply follows_rdC|]. intros c0.
  destruct (c0 <? 1); [|apply follows_ret].
  apply follows_bind; [repeat follows_step|]. intros target.
  destruct (0 <=? target); [apply follows_swap_P1|apply follows_ret].
Qed.

Lemma follows_advance_base : follows N (advance_base N) (advance_base N).
Proof.
  unfold advance_base.
  repeat first [ apply follows_incr_C | apply follows_carry_loop
               | apply follows_final_swap | follows_step ].
Qed.

(** Line 88 changes the trailing window only, so leaving it out gives
    a similar state. *)
Lemma follows_sync : follows N (sync_mirror N) (sync_mirror_noP3 N).
Proof.
  intros s [] s2 Hrun. unfold sync_mirror, bind in Hrun.
  destruct (memcpy 87 (P2 N) P1 (N - 1) s) as [[[] s1]|] eqn:E1; [|done].
  destruct (follows_memcpy _ _ _ _ _ _ _ E1) as ((ev1 & Hl1) & Hsim1).
  destruct (follows_memcpy _ _ _ _ _ _ _ Hrun) as ((ev2 & Hl2) & _).
  split; [exists (ev2 ++ ev1); by rewrite Hl2, Hl1, app_assoc|].
  intros s' Hsim Hlog.
  destruct (Hsim1 s' Hsim) as (s1' & E1' & Hs1).
  { rewrite Hl2 in Hlog. by apply Forall_app in Hlog as [_ ?]. }
  exists s1'. split; [exact E1'|].
  destruct Hs1 as (HlD & Hl & HC & HT & HD).
  pose proof (memcpy_spec 88 (P3 N) P1 (N - 1) s1) as Hwp.
  unfold wp in Hwp. rewrite Hrun in Hwp. unfold P1, P3 in Hwp.
  destruct Hwp as (Hl2' & HD2 & HC2 & HT2 & _); try lia.
  split_and!; try congruence.
  intros i Hi. rewrite HD by done. rewrite HD2.
  unfold in_P3 in Hi. by rewrite decide_False by lia.
Qed.

Lemma follows_outer_body : follows N (outer_body N) (outer_body_noP3 N).
Proof.
  unfold outer_body, outer_body_noP3.
  apply follows_bind; [apply follows_sync|]. intros _.
  apply follows_bind; [apply follows_burst|]. intros _.
  apply follows_advance_base.
Qed.

Lemma follows_while_loop fuel :
  follows N (while_loop N fuel) (while_loop_noP3 N fuel).
Proof.
  induction fuel as [|fuel IH]; cbn [while_loop while_loop_noP3];
    (apply follows_bind; [apply follows_rdC|]; intros c;
     destruct (c <? 1); [|apply follows_ret]).
  - apply follows_ret.
  - apply follows_bind; [apply follows_outer_body|]. intros _. exact IH.
Qed.

Lemma sim_init : sim N (init_state N) (init_state N).
Proof.
  unfold sim, init_state; simpl. rewrite length_replicate.
  split_and!; try done. lia.
Qed.

Lemma ev_ok_avoids_P3 e : ev_ok N e -> avoids_P3 N e.
Proof.
  unfold ev_ok, avoids_P3, in_P3. intros H Ha Hk. rewrite Ha in H.
  destruct H as (_ & _ & _ & H). by apply H.
Qed.

End Simulation.

(** * The claims *)

(** ** Running total at exit *)

(** The loop exits after exactly [(N-2)!] iterations with
    [total_perms = N!] (modulo the width of [unsigned long long]). *)
Lemma total_perms_at_exit N :
  3 <= N ->
  exists s,
    run N (iterations N) = Some (true, s) /\
    total_perms s = zfact (Z.to_nat N) mod ULL_MOD.
Proof.
  intros HN. destruct (run_spec N HN (iterations N)) as (b & s & Hrun & Hres).
  rewrite decide_False in Hres by lia. destruct Hres as [-> HI].
  exists s. split; [done|].
  destruct HI as (_ & _ & _ & _ & _ & _ & _ & HT & _).
  by rewrite HT, iterations_total.
Qed.

Lemma zfact_14 : zfact 14 = 87178291200.
Proof. rewrite !zfact_S. unfold zfact. simpl fact. reflexivity. Qed.

(** For the [N] of the source, the total printed is 14!. *)
Lemma total_perms_14 :
  exists s,
    run 14 (iterations 14) = Some (true, s) /\ total_perms s = 87178291200.
Proof.
  destruct (total_perms_at_exit 14) as (s & Hrun & HT); [lia|].
  exists s. split; [exact Hrun|].
  rewrite HT. change (Z.to_nat 14) with 14%nat. rewrite zfact_14. reflexivity.
Qed.

(** One shift step computes its buffer from the buffer alone. *)
Lemma burst_step_buffer N ci s s' s1 s1' :
  Circle_D s = Circle_D s' ->
  burst_step N ci s = Some (tt, s1) ->
  burst_step N ci s' = Some (tt, s1') ->
  Circle_D s1 = Circle_D s1'.
Proof.
  intros HD. unfold burst_step, bind, add_total, rdD, wrD. simpl.
  rewrite HD. destruct (rd _ _); [|done]. simpl.
  destruct (wr _ _ _); [|done]. simpl.
  destruct (wr _ _ _); [|done]. by intros [= <-] [= <-].
Qed.

(** So do any number of shift steps: two bursts that start from the
    same buffer go through the same buffers. *)
Lemma burst_prefix_buffer N n j s s' s1 s1' :
  Circle_D s = Circle_D s' ->
  for_loop n j (burst_step N) s = Some (tt, s1) ->
  for_loop n j (burst_step N) s' = Some (tt, s1') ->
  Circle_D s1 = Circle_D s1'.
Proof.
  revert j s s'. induction n as [|n IH]; intros j s s' HD; simpl.
  - by intros [= <-] [= <-].
  - unfold bind.
    destruct (burst_step N j s) as [[[] t]|] eqn:E; [|done].
    destruct (burst_step N j s') as [[[] t']|] eqn:E'; [|done].
    apply IH. by apply (burst_step_buffer N j s s').
Qed.

(** C1 (the code departs from the claim): the base permutation does not
    run through [(N-2)!] distinct states.  For the [N = 14] of the
    source the outer iterations 9093 and 9247 (counted from 0, the
    counter standing at 9093 and 9247) start the burst from the same
    buffer, and for [N = 6] the iterations 3 and 9 do.  By
    [burst_prefix_buffer] the two bursts then go through the same
    buffers, so whatever the first emits the second emits again, while
    [total_perms] counts both. *)
Theorem C1_base_state_repeats :
  let view := fun s => (Circle_D s, C_PP s) in
  let d14 := [0; 8; 4; 1; 10; 9; 7; 2; 6; 11; 3; 5; 12; 13;
              0; 8; 4; 1; 10; 9; 7; 2; 6; 11; 3; 5; 12;
              0; 8; 4; 1; 10; 9; 7; 2; 6; 11; 3; 5; 12; 0; 0] in
  let d6 := [3; 0; 1; 2; 4; 5; 3; 0; 1; 2; 4; 3; 0; 1; 2; 4; 0; 0] in
  view <$> state_at 14 (Z.to_nat 9093) AfterSync =
    Some (d14, [0; 0; 0; 0; 0; 0; 0; 0; 6; 8; 9; 9; 0; 0]) /\
  view <$> state_at 14 (Z.to_nat 9247) AfterSync =
    Some (d14, [0; 0; 0; 0; 0; 0; 0; 0; 7; 0; 0; 7; 0; 0]) /\
  view <$> state_at 6 3 AfterSync = Some (d6, [0; 0; 0; 3; 0; 0]) /\
  view <$> state_at 6 9 AfterSync = Some (d6, [0; 0; 2; 1; 0; 0]).
Proof.
  cbv zeta. split_and!; vm_compute; reflexivity.
Qed.

(** C2: for every [N >= 3] the loop of line 85 terminates, after
    exactly [(N-2)!] iterations: with that much fuel or more it exits
    through its condition, [C_PP[0]] being exactly 1; with less, the
    condition still holds ([C_PP[0]] is 0) when the fuel is used up. *)
Theorem C2_loop_terminates N :
  3 <= N ->
  (forall fuel, (iterations N <= fuel)%nat ->
     exists s, run N fuel = Some (true, s) /\ rd (C_PP s) 0 = Some 1) /\
  (forall fuel, (fuel < iterations N)%nat ->
     exists s, run N fuel = Some (false, s) /\ rd (C_PP s) 0 = Some 0).
Proof.
  intros HN. split; intros fuel Hfuel;
    destruct (run_spec N HN fuel) as (b & s & Hrun & Hres).
  - rewrite decide_False in Hres by lia. destruct Hres as [-> HI].
    exists s. split; [done|].
    by rewrite (Inv_rd_C0 N HN _ _ HI), (Inv_C0_one N HN _ HI).
  - rewrite decide_True in Hres by lia. destruct Hres as [-> HI].
    exists s. split; [done|].
    by rewrite (Inv_rd_C0 N HN _ _ HI), (Inv_C0_zero N HN _ _ HI Hfuel).
Qed.

Lemma C2_loop_terminates_witness :
  (forall fuel, (iterations 3 <= fuel)%nat ->
     exists s, run 3 fuel = Some (true, s) /\ rd (C_PP s) 0 = Some 1) /\
  (forall fuel, (fuel < iterations 3)%nat ->
     exists s, run 3 fuel = Some (false, s) /\ rd (C_PP s) 0 = Some 0).
Proof. apply (C2_loop_terminates 3). lia. Defined.

Lemma zfact_19 : zfact 19 = 121645100408832000.
Proof. rewrite !zfact_S. unfold zfact. simpl fact. reflexivity. Qed.

(** The running total after the first [n] shift steps of a burst. *)
Lemma burst_steps_total N n s :
  1 < N ->
  Z.of_nat (length (Circle_D s)) = 3 * N ->
  Z.of_nat n <= N - 1 ->
  0 <= total_perms s < ULL_MOD ->
  wp (for_loop n 0 (burst_step N)) s (fun _ s' =>
    total_perms s' = (total_perms s + Z.of_nat n * N) mod ULL_MOD).
Proof.
  intros HN Hlen Hn HT0. eapply wp_mono.
  - apply (wp_for_loop (fun ci s' =>
      0 <= ci /\
      length (Circle_D s') = length (Circle_D s) /\
      total_perms s' = (total_perms s + ci * N) mod ULL_MOD)).
    + split_and!; try done.
      rewrite Z.mul_0_l, Z.add_0_r. symmetry. by apply Z.mod_small.
    + intros ci s' Hci (Hci0 & Hl & HT).
      unfold burst_step, lastIndex.
      apply wp_bind. apply wp_add_total. cbv beta.
      destruct (rd_is_Some (Circle_D s') (N + ci)) as [v Hv]; [lia|].
      apply wp_bind. eapply (wp_rdD _ _ _ _ v); [done|]. cbv beta.
      apply wp_bind. eapply wp_wrD; simpl; [lia|].
      eapply wp_wrD; simpl; [rewrite length_insert; lia|].
      split; [lia|]. split; [by rewrite !length_insert|].
      rewrite HT, Z.add_mod_idemp_l by done. f_equal. lia.
  - intros [] s' (_ & _ & HT). by rewrite Z.add_0_l in HT.
Qed.

(** C3, counterexample: [total_perms] is a 64-bit counter.  For
    [N = 21] the iteration with number 43920819223117980 (one of the
    [19!] iterations of the run) starts its burst with
    [total_perms = 2^64 - 16]; the burst leaves 404, which is neither
    the old value plus [21*20] nor above the old value. *)
Lemma C3_burst_wraps :
  exists s1 s2,
    state_at 21 (Z.to_nat 43920819223117980) AfterSync = Some s1 /\
    burst 21 s1 = Some (tt, s2) /\
    total_perms s1 = 18446744073709551600 /\
    total_perms s2 = 404 /\
    total_perms s2 <> total_perms s1 + 21 * (21 - 1) /\
    total_perms s2 < total_perms s1.
Proof.
  remember (Z.to_nat 43920819223117980) as K eqn:HK.
  assert (HKz : Z.of_nat K = 43920819223117980).
  { rewrite HK. apply Z2Nat.id. lia. }
  clear HK.
  assert (HN : 3 <= 21) by lia.
  assert (Hlt : (K < iterations 21)%nat).
  { apply Nat2Z.inj_lt. rewrite HKz, (zfact_iterations 21 HN).
    change (S (Z.to_nat (21 - 3))) with 19%nat. rewrite zfact_19. lia. }
  destruct (head_inv 21 HN K) as (s0 & Hs0 & HI0); [lia|].
  pose proof (Inv_C0_zero 21 HN K s0 HI0 Hlt) as H0.
  destruct (body_step 21 HN K s0 HI0 H0) as (s1 & s2 & s3 & Hb).
  cbv zeta in Hb.
  destruct Hb as (Hrd & Hs1 & Hs2 & _ & Hsync & Hburst & _).
  destruct Hsync as (_ & _ & _ & HT1 & _).
  destruct Hburst as (_ & _ & _ & HT2 & _).
  destruct HI0 as (_ & _ & _ & _ & _ & _ & _ & HT0 & _).
  cbn [total_perms] in HT1. rewrite HT0, HKz in HT1.
  assert (HT1' : total_perms s1 = 18446744073709551600).
  { rewrite HT1. reflexivity. }
  assert (HT2' : total_perms s2 = 404).
  { rewrite HT2, HT1'. reflexivity. }
  exists s1, s2. split.
  { unfold state_at. rewrite (bind_Some _ _ _ _ _ Hs0).
    assert (Henter : enter_loop s0 =
              Some (tt, St (Circle_D s0) (C_PP s0) (total_perms s0)
                           (Ev 85 ArrC Rd 0 :: log s0))).
    { unfold enter_loop. rewrite (bind_Some _ _ _ _ _ Hrd). reflexivity. }
    rewrite (bind_Some _ _ _ _ _ Henter). rewrite Hs1. reflexivity. }
  split; [exact Hs2|]. split; [exact HT1'|]. split; [exact HT2'|].
  rewrite HT1', HT2'. lia.
Qed.

(** C3, as amended: a burst is [N-1] shift steps, each of which adds
    [N] to the 64-bit [total_perms]; after [n] of them the total is the
    old one plus [n*N] modulo [2^64], after the whole burst the old one
    plus [N*(N-1)] modulo [2^64].  The increase is exact, and the total
    has not decreased, whenever that sum is below [2^64]. *)
Theorem C3_burst_total N s :
  1 < N ->
  Z.of_nat (length (Circle_D s)) = 3 * N ->
  0 <= total_perms s < ULL_MOD ->
  burst N s = for_loop (Z.to_nat (N - 1)) 0 (burst_step N) s /\
  (forall n, Z.of_nat n <= N - 1 ->
     exists sn,
       for_loop n 0 (burst_step N) s = Some (tt, sn) /\
       total_perms sn = (total_perms s + Z.of_nat n * N) mod ULL_MOD /\
       (total_perms s + Z.of_nat n * N < ULL_MOD ->
        total_perms sn = total_perms s + Z.of_nat n * N)) /\
  (exists s',
     burst N s = Some (tt, s') /\
     total_perms s' = (total_perms s + N * (N - 1)) mod ULL_MOD /\
     (total_perms s + N * (N - 1) < ULL_MOD ->
      total_perms s' = total_perms s + N * (N - 1))) /\
  (forall ci s1 s2,
     burst_step N ci s1 = Some (tt, s2) ->
     total_perms s2 = (total_perms s1 + N) mod ULL_MOD).
Proof.
  intros HN Hlen HT0.
  assert (Hpre : forall n, Z.of_nat n <= N - 1 ->
     exists sn,
       for_loop n 0 (burst_step N) s = Some (tt, sn) /\
       total_perms sn = (total_perms s + Z.of_nat n * N) mod ULL_MOD /\
       (total_perms s + Z.of_nat n * N < ULL_MOD ->
        total_perms sn = total_perms s + Z.of_nat n * N)).
  { intros n Hn.
    destruct (wp_unit_elim _ s _ (burst_steps_total N n s HN Hlen Hn HT0))
      as (sn & Hsn & HT).
    exists sn. split_and!; try done.
    intros Hlt. rewrite HT. apply Z.mod_small.
    assert (0 <= Z.of_nat n * N) by nia. lia. }
  split; [reflexivity|]. split; [exact Hpre|]. split.
  - destruct (Hpre (Z.to_nat (N - 1))) as (s' & Hs' & HT & Hex); [lia|].
    replace (Z.of_nat (Z.to_nat (N - 1)) * N) with (N * (N - 1)) in * by lia.
    exists s'. split_and!; done.
  - intros ci s1 s2. unfold burst_step, bind, add_total, rdD, wrD. simpl.
    destruct (rd _ _); [|done]. destruct (wr _ _ _); [|done]. simpl.
    destruct (wr _ _ _); [|done]. by intros [= <-].
Qed.

Lemma C3_burst_total_witness :
  exists s',
    burst 4 (St [1; 0; 2; 3; 1; 2; 3; 0; 1; 2; 0; 0] [0; 1; 0; 0] 12 []) =
      Some (tt, s') /\
    total_perms s' = 24.
Proof.
  destruct (C3_burst_total 4
              (St [1; 0; 2; 3; 1; 2; 3; 0; 1; 2; 0; 0] [0; 1; 0; 0] 12 []))
    as (_ & _ & (s' & Hs' & _ & HT) & _).
  - lia.
  - reflexivity.
  - simpl. unfold ULL_MOD. lia.
  - exists s'. split; [exact Hs'|]. apply HT. simpl. unfold ULL_MOD. lia.
Defined.

Lemma counter_ok_of_rd N C :
  3 <= N -> Z.of_nat (length C) = N ->
  (forall i, 0 <= i < N -> exists c, rd C i = Some c /\ 0 <= c <= i) ->
  counter_ok C.
Proof.
  intros HN Hlen H j. destruct (decide (Z.of_nat j < N)) as [Hj|Hj].
  - destruct (H (Z.of_nat j)) as (c & Hc & Hb); [lia|].
    apply rd_total in Hc. rewrite Nat2Z.id in Hc. by rewrite Hc.
  - rewrite list_lookup_total_alt, lookup_ge_None_2 by lia. simpl. lia.
Qed.

Lemma rd_of_counter_after N C i :
  Z.of_nat (length C) = N -> counter_after C -> 1 <= i < N ->
  exists c, rd C i = Some c /\ 0 <= c <= i.
Proof.
  intros Hlen (Hge & Hle & _) Hi. exists (C !!! Z.to_nat i). split.
  - unfold rd. rewrite decide_True by lia.
    apply list_lookup_lookup_total_lt. lia.
  - pose proof (Hge (Z.to_nat i)). pose proof (Hle (Z.to_nat i)). lia.
Qed.

(** *** What a successful access has done *)














(** Outside the valid counters the same code takes its other branches:
    with [C_PP[2] = 3] the carry swap of line 102 exchanges [P1[2]] and
    [P1[3]], and with [C_PP[2] = -1] the target of line 108 is negative
    and line 110 is skipped. *)
Lemma advance_base_other_branches :
  (fun r => (fun '(_, s') => (take 5 (Circle_D s'), C_PP s')) <$> r)
    (advance_base 5 (St [0; 1; 2; 3; 0; 0; 1; 2; 4; 0; 1; 2; 3; 0; 0]
                        [0; 0; 3; 0; 0] 0 [])) =
    Some ([1; 0; 3; 2; 4], [0; 1; 0; 0; 0]) /\
  (fun r => (fun '(_, s') => (take 5 (Circle_D s'), C_PP s')) <$> r)
    (advance_base 5 (St [0; 1; 2; 3; 0; 0; 1; 2; 4; 0; 1; 2; 3; 0; 0]
                        [0; 0; -1; 0; 0] 0 [])) =
    Some ([0; 1; 2; 3; 4], [0; 0; 0; 0; 0]).
Proof. split; vm_compute; reflexivity. Qed.

(** C5, counterexample: for [N = 3], after the burst of the first
    iteration [P1] is [0; 1; 0], which is no permutation of the
    labels. *)
Lemma C5_P1_after_burst :
  P1_of 3 <$> state_at 3 0 AfterBurst = Some [0; 1; 0] /\
  ~ is_permutation 3 [0; 1; 0].
Proof.
  split; [vm_compute; reflexivity|].
  unfold is_permutation. intros H. symmetry in H.
  apply (Permutation_in 2) in H; [simpl in H; lia|].
  vm_compute. tauto.
Qed.

(** C5, as amended: whenever the loop condition is evaluated (at the
    start of every outer iteration and at loop exit) [P1] holds each
    label [0..N-1] exactly once; after the burst of an iteration only
    [P1[0..N-2]] is a permutation, of [0..N-2], and [P1[N-1]] repeats
    [P1[0]] until line 113 stores [N-1] there. *)
Theorem C5_P1_permutation_at_loop_head N k :
  3 <= N ->
  ((k <= iterations N)%nat ->
   exists s, state_at N k AtHead = Some s /\ is_permutation N (P1_of N s)) /\
  ((k < iterations N)%nat ->
   exists s, state_at N k AfterBurst = Some s /\
     is_permutation (N - 1) (window s P1 (N - 1)) /\
     rd (Circle_D s) (N - 1) = rd (Circle_D s) 0).
Proof.
  intros HN. split; intros Hk.
  - destruct (head_inv N HN k Hk) as (s & Hs & HI).
    exists s. split; [unfold state_at; by rewrite Hs|].
    by apply (Inv_permutation N k).
  - destruct (head_inv N HN k) as (s0 & Hs0 & HI0); [lia|].
    destruct (iteration_states N HN k s0 Hs0 HI0 Hk)
      as (s0' & s1 & s2 & s3 & HD0 & _ & _ & _ & _ & H2 & _ & _ &
          Hsync & Hburst & _ & _).
    destruct Hsync as (_ & HD1 & _). destruct Hburst as (_ & HD2 & _).
    exists s2. split; [done|].
    assert (Hsame : forall i, 0 <= i < N - 1 ->
              rd (Circle_D s2) i = rd (Circle_D s0) i).
    { intros i Hi. rewrite HD2, !HD1, HD0.
      repeat case_decide; try lia; done. }
    split.
    + unfold is_permutation.
      replace (window s2 P1 (N - 1)) with (window s0 P1 (N - 1)).
      2:{ apply window_ext; unfold P1; try lia.
          intros j Hj. symmetry. apply Hsame. lia. }
      pose proof (Inv_permutation N k s0 HN HI0) as Hp.
      unfold is_permutation, P1_of, window, P1 in *.
      change (Z.to_nat 0) with 0%nat in *. rewrite drop_0 in *.
      destruct HI0 as (_ & _ & _ & _ & Hperm & Hd2 & _).
      replace (Z.to_nat (N - 1)) with (S (Z.to_nat (N - 2))) by lia.
      rewrite (take_S_r _ _ (N - 2)).
      2:{ rewrite <- rd_lookup, <- Hd2. f_equal. lia. }
      rewrite Hperm.
      replace (N - 1) with (Z.of_nat (S (Z.to_nat (N - 2)))) by lia.
      rewrite seqZ_S.
      replace (Z.of_nat (Z.to_nat (N - 2))) with (N - 2) by lia.
      by rewrite Z.add_0_l.
    + rewrite (Hsame 0) by lia. rewrite HD2, !HD1, HD0.
      repeat case_decide; try lia. f_equal. lia.
Qed.

Lemma C5_P1_permutation_at_loop_head_witness :
  exists s, state_at 3 1 AtHead = Some s /\ is_permutation 3 (P1_of 3 s).
Proof.
  apply (C5_P1_permutation_at_loop_head 3 1); [lia|].
  unfold iterations. simpl. lia.
Defined.

(** No loop condition is evaluated after the one that fails. *)
Lemma no_head_after_exit N k :
  3 <= N -> (iterations N < k)%nat -> loop_head N k (init_state N) = None.
Proof.
  intros HN Hk. induction k as [|k IH]; [lia|].
  cbn [loop_head]. unfold bind at 1.
  destruct (decide (k = iterations N)) as [->|Hne].
  - destruct (head_inv N HN (iterations N)) as (s & Hs & HI); [lia|].
    rewrite Hs. unfold enter_loop, bind, rdC.
    by rewrite (Inv_rd_C0 N HN _ _ HI), (Inv_C0_one N HN _ HI).
  - by rewrite IH by lia.
Qed.

(** C6: at the start of every outer iteration each counter cell [i]
    holds a value in [0..i]; [C_PP[0]] is 1 only in the state in which
    the loop condition fails, after [(N-2)!] iterations, and the other
    cells are in range there too. *)
Theorem C6_counter_invariant N k :
  3 <= N ->
  ((k < iterations N)%nat ->
   exists s, state_at N k AtHead = Some s /\
     forall i, 0 <= i < N -> exists c, rd (C_PP s) i = Some c /\ 0 <= c <= i) /\
  (k = iterations N ->
   exists s, state_at N k AtHead = Some s /\
     rd (C_PP s) 0 = Some 1 /\
     forall i, 1 <= i < N -> exists c, rd (C_PP s) i = Some c /\ 0 <= c <= i) /\
  ((iterations N < k)%nat -> state_at N k AtHead = None).
Proof.
  intros HN. split_and!; intros Hk.
  - destruct (head_inv N HN k) as (s & Hs & HI); [lia|].
    exists s. split; [unfold state_at; by rewrite Hs|].
    intros i Hi. destruct (decide (i = 0)) as [->|Hi0].
    + exists 0. split; [|lia].
      by rewrite (Inv_rd_C0 N HN _ _ HI), (Inv_C0_zero N HN _ _ HI Hk).
    + destruct HI as (_ & HlC & Hafter & _).
      apply (rd_of_counter_after N); [done|done|lia].
  - subst k. destruct (head_inv N HN (iterations N)) as (s & Hs & HI); [lia|].
    exists s. split; [unfold state_at; by rewrite Hs|]. split.
    + by rewrite (Inv_rd_C0 N HN _ _ HI), (Inv_C0_one N HN _ HI).
    + intros i Hi. destruct HI as (_ & HlC & Hafter & _).
      by apply (rd_of_counter_after N).
  - unfold state_at. by rewrite no_head_after_exit.
Qed.

Lemma C6_counter_invariant_witness :
  exists s, state_at 4 1 AtHead = Some s /\
    forall i, 0 <= i < 4 -> exists c, rd (C_PP s) i = Some c /\ 0 <= c <= i.
Proof.
  apply (C6_counter_invariant 4 1); [lia|].
  unfold iterations. simpl. lia.
Defined.

(** C7, counterexample: for [N = 4], at the start of the second outer
    iteration [P1] begins [1; 0; 2] while the middle window holds
    [1; 2; 3] and the trailing window [0; 1; 2]; and for [N = 3] the
    middle window is [1; 2] after the burst, where [P1] begins [0; 1]. *)
Lemma C7_mirror_broken_at_entry :
  (exists s, state_at 4 1 AtHead = Some s /\ ~ mirrored 4 s) /\
  (exists s, state_at 3 0 AfterBurst = Some s /\ ~ mirrored 3 s).
Proof.
  split; (eexists; split; [vm_compute; reflexivity|]);
    unfold mirrored; vm_compute; intros [H _]; discriminate.
Qed.

(** C7, as amended: in every outer iteration the two windows are exact
    copies of [P1[0..N-2]] right after lines 87-88.  The burst then
    shifts the middle window: after it the cells [N-1..2N-3] hold
    [P1[0..N-2]] and cell [2N-2] holds [N-1]; the trailing window is
    still a copy. *)
Theorem C7_mirror_after_sync N k :
  3 <= N -> (k < iterations N)%nat ->
  exists s1 s2,
    state_at N k AfterSync = Some s1 /\
    mirrored N s1 /\
    state_at N k AfterBurst = Some s2 /\
    window s2 (N - 1) (N - 1) = window s1 P1 (N - 1) /\
    rd (Circle_D s2) (2 * N - 2) = Some (N - 1) /\
    window s2 (P3 N) (N - 1) = window s2 P1 (N - 1).
Proof.
  intros HN Hk.
  destruct (head_inv N HN k) as (s0 & Hs0 & HI0); [lia|].
  destruct (iteration_states N HN k s0 Hs0 HI0 Hk)
    as (s0' & s1 & s2 & s3 & HD0 & _ & _ & _ & H1 & H2 & _ & _ &
        Hsync & Hburst & _ & _).
  destruct Hsync as (_ & HD1 & _). destruct Hburst as (_ & HD2 & _).
  exists s1, s2. unfold mirrored, P1, P2, P3. split_and!; try done.
  - apply window_ext; try lia. intros j Hj. rewrite !HD1.
    repeat case_decide; try lia. f_equal. lia.
  - apply window_ext; try lia. intros j Hj. rewrite !HD1.
    repeat case_decide; try lia. f_equal. lia.
  - apply window_ext; try lia. intros j Hj. rewrite HD2, !HD1.
    repeat case_decide; try lia. f_equal. lia.
  - rewrite HD2. repeat case_decide; try lia. done.
  - apply window_ext; try lia. intros j Hj. rewrite !HD2, !HD1.
    repeat case_decide; try lia. f_equal. lia.
Qed.

Lemma C7_mirror_after_sync_witness :
  exists s1 s2,
    state_at 4 1 AfterSync = Some s1 /\
    mirrored 4 s1 /\
    state_at 4 1 AfterBurst = Some s2 /\
    window s2 (4 - 1) (4 - 1) = window s1 P1 (4 - 1) /\
    rd (Circle_D s2) (2 * 4 - 2) = Some (4 - 1) /\
    window s2 (P3 4) (4 - 1) = window s2 P1 (4 - 1).
Proof.
  apply (C7_mirror_after_sync 4 1); [lia|].
  unfold iterations. simpl. lia.
Defined.

(** C8: for every [N >= 3] the run never leaves the arrays, however
    many iterations it is allowed, and every access it has made obeys
    [ev_ok]: [C_PP] only at [0..N-3] (the index [i] of the carry loop
    among them), the swaps only at [P1[0..N-3]], the burst only at
    [Circle_D[N-1..2N-2]], and everything inside [Circle_D]. *)
Theorem C8_accesses_in_bounds N fuel :
  3 <= N ->
  exists b s, run N fuel = Some (b, s) /\ Forall (ev_ok N) (log s).
Proof.
  intros HN. destruct (run_spec N HN fuel) as (b & s & Hrun & Hres).
  exists b, s. split; [done|].
  case_decide; destruct Hres as [_ HI]; apply HI.
Qed.

Lemma C8_accesses_in_bounds_witness :
  exists b s, run 5 2 = Some (b, s) /\ Forall (ev_ok 5) (log s).
Proof. apply (C8_accesses_in_bounds 5 2). lia. Defined.

(** C9: the burst changes [Circle_D] only inside [N-1..2N-2] and
    accesses nothing else; the length of [Circle_D] and all of [C_PP]
    are unchanged, and [total_perms] grows by [N*(N-1)]. *)
Theorem C9_burst_frame N s :
  1 < N ->
  Z.of_nat (length (Circle_D s)) = 3 * N ->
  exists s',
    burst N s = Some (tt, s') /\
    (forall i, ~ (N - 1 <= i <= 2 * N - 2) ->
       rd (Circle_D s') i = rd (Circle_D s) i) /\
    length (Circle_D s') = length (Circle_D s) /\
    C_PP s' = C_PP s /\
    total_perms s' = (total_perms s + N * (N - 1)) mod ULL_MOD /\
    log_ext (burst_ev N) (log s) (log s').
Proof.
  intros HN Hlen.
  destruct (wp_unit_elim _ s _ (burst_spec N ltac:(lia) s Hlen))
    as (s' & Hs' & Hl & HD & HC & HT & HL).
  exists s'. split_and!; try done.
  intros i Hi. rewrite HD. repeat case_decide; try lia. done.
Qed.

Lemma C9_burst_frame_witness :
  exists s',
    burst 3 (init_state 3) = Some (tt, s') /\
    (forall i, ~ (3 - 1 <= i <= 2 * 3 - 2) ->
       rd (Circle_D s') i = rd (Circle_D (init_state 3)) i) /\
    length (Circle_D s') = length (Circle_D (init_state 3)) /\
    C_PP s' = C_PP (init_state 3) /\
    total_perms s' = (total_perms (init_state 3) + 3 * (3 - 1)) mod ULL_MOD /\
    log_ext (burst_ev 3) (log (init_state 3)) (log s').
Proof. apply (C9_burst_frame 3 (init_state 3)); [lia|reflexivity]. Defined.

(** C10: no access of the run reads the trailing window
    [Circle_D[2N-1..3N-2]], and the program without line 88 ends the
    same way with the same [total_perms], [C_PP] and [P1] (indeed the
    same [Circle_D] outside the trailing window). *)
Theorem C10_P3_write_only N fuel :
  3 <= N ->
  exists b s s',
    run N fuel = Some (b, s) /\
    run_noP3 N fuel = Some (b, s') /\
    Forall (avoids_P3 N) (log s) /\
    total_perms s' = total_perms s /\
    C_PP s' = C_PP s /\
    P1_of N s' = P1_of N s /\
    (forall i, ~ in_P3 N i -> rd (Circle_D s') i = rd (Circle_D s) i).
Proof.
  intros HN. destruct (run_spec N HN fuel) as (b & s & Hrun & Hres).
  assert (Hlog : Forall (avoids_P3 N) (log s)).
  { eapply Forall_impl; [|intros e; apply ev_ok_avoids_P3].
    case_decide; destruct Hres as [_ HI]; apply HI. }
  assert (Hf : follows N (init_P1 N;;; while_loop N fuel)
                 (init_P1 N;;; while_loop_noP3 N fuel)).
  { apply follows_bind.
    - unfold init_P1. apply follows_for_loop. intros j. apply follows_wrD.
    - intros _. by apply follows_while_loop. }
  destruct (Hf _ _ _ Hrun) as (_ & Hsim).
  destruct (Hsim (init_state N) (sim_init N HN) Hlog)
    as (s' & Hrun' & _ & Hl & HC & HT & HD).
  exists b, s, s'. split_and!; try done.
  unfold P1_of. apply window_ext; try lia.
  intros j Hj. apply HD. unfold in_P3. lia.
Qed.

Lemma C10_P3_write_only_witness :
  exists b s s',
    run 5 2 = Some (b, s) /\
    run_noP3 5 2 = Some (b, s') /\
    Forall (avoids_P3 5) (log s) /\
    total_perms s' = total_perms s /\
    C_PP s' = C_PP s /\
    P1_of 5 s' = P1_of 5 s /\
    (forall i, ~ in_P3 5 i -> rd (Circle_D s') i = rd (Circle_D s) i).
Proof. apply (C10_P3_write_only 5 2). lia. Defined.

(** * Further properties of the loop *)

(** ** Sizes below 3 *)

(** X1: for [N = 1] and [N = 2] the program leaves its arrays in the
    first outer iteration: [C_PP[N-3]] (line 99) has a negative
    index. *)
Theorem X1_small_N_faults N fuel :
  1 <= N < 3 -> run N (S fuel) = None.
Proof.
  intros HN.
  assert (N = 1 \/ N = 2) as [-> | ->] by lia; vm_compute; reflexivity.
Qed.

Lemma X1_small_N_faults_witness : run 2 (S 5) = None.
Proof. apply (X1_small_N_faults 2 5). lia. Defined.

(** ** The counter counts the iterations *)

Lemma val_lower_digit C j i :
  (forall i : nat, 0 <= C !!! i) -> (1 <= i <= j)%nat ->
  C !!! 0%nat * zfact (S j) + C !!! i <= val C j.
Proof.
  intros H0. induction j as [|j IH]; intros Hi; [lia|].
  rewrite zfact_S. cbn [val]. pose proof (zfact_pos (S j)).
  pose proof (H0 (S j)). pose proof (H0 i).
  destruct (decide (i = S j)) as [->|Hne].
  - pose proof (val_lower C j H0). nia.
  - specialize (IH ltac:(lia)). nia.
Qed.

(** X2: whenever the loop condition is evaluated, the digits
    [C_PP[0..N-3]] read as a number in factorial base (digit [i] of
    radix [i+1], [C_PP[N-3]] least significant) give the number of
    iterations done so far; so no two evaluations of the condition see
    the same counter. *)
Theorem X2_counter_counts N k1 k2 :
  3 <= N -> (k1 <= iterations N)%nat -> (k2 <= iterations N)%nat ->
  exists s1 s2,
    state_at N k1 AtHead = Some s1 /\
    state_at N k2 AtHead = Some s2 /\
    val (C_PP s1) (Z.to_nat (N - 3)) = Z.of_nat k1 /\
    val (C_PP s2) (Z.to_nat (N - 3)) = Z.of_nat k2 /\
    (C_PP s1 = C_PP s2 -> k1 = k2).
Proof.
  intros HN H1 H2.
  destruct (head_inv N HN k1 H1) as (s1 & Hs1 & HI1).
  destruct (head_inv N HN k2 H2) as (s2 & Hs2 & HI2).
  exists s1, s2. unfold state_at. rewrite Hs1, Hs2.
  destruct HI1 as (_ & _ & _ & Hv1 & _). destruct HI2 as (_ & _ & _ & Hv2 & _).
  split_and!; try done.
  intros HC. rewrite HC in Hv1. lia.
Qed.

Lemma X2_counter_counts_witness :
  exists s1 s2,
    state_at 5 2 AtHead = Some s1 /\
    state_at 5 4 AtHead = Some s2 /\
    val (C_PP s1) (Z.to_nat (5 - 3)) = Z.of_nat 2 /\
    val (C_PP s2) (Z.to_nat (5 - 3)) = Z.of_nat 4 /\
    (C_PP s1 = C_PP s2 -> 2%nat = 4%nat).
Proof.
  apply (X2_counter_counts 5 2 4); [lia| |];
    unfold iterations; simpl; lia.
Defined.

(** ** The width of [total_perms] *)

Lemma zfact_mono n m : (n <= m)%nat -> zfact n <= zfact m.
Proof.
  induction m as [|m IH]; intros H.
  - by replace n with 0%nat by lia.
  - destruct (decide (n = S m)) as [->|Hne]; [done|].
    rewrite zfact_S. pose proof (zfact_pos m). specialize (IH ltac:(lia)). nia.
Qed.

Lemma zfact_20 : zfact 20 = 2432902008176640000.
Proof. rewrite !zfact_S. unfold zfact. simpl fact. reflexivity. Qed.

Lemma zfact_21 : zfact 21 = 51090942171709440000.
Proof. rewrite zfact_S, zfact_20. reflexivity. Qed.

(** X3: the 64-bit [total_perms] is exact up to [N = 20] and no
    further.  For [3 <= N <= 20] it holds [k*N*(N-1)] whenever the loop
    condition is evaluated after [k] iterations, and [N!] at exit; for
    [N >= 21] the value at exit is [N!] modulo [2^64], which is less
    than [N!]. *)
Theorem X3_total_perms_width N :
  3 <= N ->
  exists s,
    run N (iterations N) = Some (true, s) /\
    total_perms s = zfact (Z.to_nat N) mod ULL_MOD /\
    (N <= 20 ->
     total_perms s = zfact (Z.to_nat N) /\
     forall k, (k <= iterations N)%nat ->
       exists sk, state_at N k AtHead = Some sk /\
         total_perms sk = Z.of_nat k * (N * (N - 1))) /\
    (21 <= N -> total_perms s < zfact (Z.to_nat N)).
Proof.
  intros HN. destruct (run_spec N HN (iterations N)) as (b & s & Hrun & Hres).
  rewrite decide_False in Hres by lia. destruct Hres as [-> HI].
  exists s. split; [exact Hrun|].
  destruct HI as (_ & _ & _ & _ & _ & _ & _ & HT & _).
  rewrite iterations_total in HT by done.
  assert (HM : ULL_MOD = 18446744073709551616) by reflexivity.
  split; [done|]. split.
  - intros H20.
    assert (Hsmall : zfact (Z.to_nat N) < ULL_MOD).
    { pose proof (zfact_mono (Z.to_nat N) 20 ltac:(lia)) as Hm.
      rewrite zfact_20 in Hm. lia. }
    pose proof (zfact_pos (Z.to_nat N)) as Hpos.
    split; [rewrite HT; apply Z.mod_small; lia|].
    intros k Hk. destruct (head_inv N HN k Hk) as (sk & Hsk & HIk).
    exists sk. split; [unfold state_at; by rewrite Hsk|].
    destruct HIk as (_ & _ & _ & _ & _ & _ & _ & HTk & _).
    rewrite HTk. apply Z.mod_small.
    pose proof (iterations_total N HN) as Hit.
    assert (0 <= N * (N - 1)) by nia. nia.
  - intros H21.
    pose proof (zfact_mono 21 (Z.to_nat N) ltac:(lia)) as Hm.
    rewrite zfact_21 in Hm.
    pose proof (Z.mod_pos_bound (zfact (Z.to_nat N)) ULL_MOD ltac:(lia)).
    lia.
Qed.

Lemma X3_total_perms_width_witness :
  exists s,
    run 4 (iterations 4) = Some (true, s) /\
    total_perms s = zfact (Z.to_nat 4) mod ULL_MOD /\
    (4 <= 20 ->
     total_perms s = zfact (Z.to_nat 4) /\
     forall k, (k <= iterations 4)%nat ->
       exists sk, state_at 4 k AtHead = Some sk /\
         total_perms sk = Z.of_nat k * (4 * (4 - 1))) /\
    (21 <= 4 -> total_perms s < zfact (Z.to_nat 4)).
Proof. apply (X3_total_perms_width 4). lia. Defined.

(** ** The counter at exit *)

(** X4: when the loop has exited, the counter is exactly
    [1, 0, ..., 0] on its digits [0..N-3]. *)
Theorem X4_counter_at_exit N :
  3 <= N ->
  exists s,
    run N (iterations N) = Some (true, s) /\
    rd (C_PP s) 0 = Some 1 /\
    forall i, 1 <= i <= N - 3 -> rd (C_PP s) i = Some 0.
Proof.
  intros HN. destruct (run_spec N HN (iterations N)) as (b & s & Hrun & Hres).
  rewrite decide_False in Hres by lia. destruct Hres as [-> HI].
  exists s. split; [exact Hrun|].
  pose proof (Inv_C0_one N HN _ HI) as H1.
  split; [by rewrite (Inv_rd_C0 N HN _ _ HI), H1|].
  intros i Hi. destruct HI as (_ & HlC & (Hge & _ & _) & Hval & _).
  pose proof (val_lower_digit (C_PP s) (Z.to_nat (N - 3)) (Z.to_nat i) Hge
                ltac:(lia)) as Hlo.
  rewrite Hval, H1, <- (zfact_iterations N HN) in Hlo.
  pose proof (Hge (Z.to_nat i)).
  unfold rd. rewrite decide_True by lia.
  rewrite (list_lookup_lookup_total_lt (C_PP s) (Z.to_nat i)) by lia.
  f_equal. lia.
Qed.

Lemma X4_counter_at_exit_witness :
  exists s,
    run 5 (iterations 5) = Some (true, s) /\
    rd (C_PP s) 0 = Some 1 /\
    forall i, 1 <= i <= 5 - 3 -> rd (C_PP s) i = Some 0.
Proof. apply (X4_counter_at_exit 5). lia. Defined.

(** ** The last two labels stay *)

(** X5: whenever the loop condition is evaluated, [P1[N-2]] is [N-2]
    and [P1[N-1]] is [N-1], and [P1[0..N-3]] is a permutation of
    [0..N-3]: the base advance moves the first [N-2] labels only. *)
Theorem X5_last_two_fixed N k :
  3 <= N -> (k <= iterations N)%nat ->
  exists s,
    state_at N k AtHead = Some s /\
    rd (Circle_D s) (N - 2) = Some (N - 2) /\
    rd (Circle_D s) (N - 1) = Some (N - 1) /\
    is_permutation (N - 2) (window s P1 (N - 2)).
Proof.
  intros HN Hk. destruct (head_inv N HN k Hk) as (s & Hs & HI).
  exists s. unfold state_at. rewrite Hs.
  destruct HI as (_ & _ & _ & _ & Hperm & H2 & H1 & _).
  split_and!; done.
Qed.

Lemma X5_last_two_fixed_witness :
  exists s,
    state_at 5 3 AtHead = Some s /\
    rd (Circle_D s) (5 - 2) = Some (5 - 2) /\
    rd (Circle_D s) (5 - 1) = Some (5 - 1) /\
    is_permutation (5 - 2) (window s P1 (5 - 2)).
Proof.
  apply (X5_last_two_fixed 5 3); [lia|]. unfold iterations; simpl; lia.
Defined.

(** ** One transposition per base advance *)

Lemma rd_swap_cells P i t j :
  0 <= i < Z.of_nat (length P) -> 0 <= t < Z.of_nat (length P) ->
  rd (swap_cells P i t) j =
    if decide (j = t) then Some (P !!! Z.to_nat i)
    else if decide (j = i) then Some (P !!! Z.to_nat t)
         else rd P j.
Proof.
  intros Hi Ht. unfold swap_cells.
  rewrite rd_insert by (rewrite length_insert; lia).
  case_decide; [done|]. by rewrite rd_insert by lia.
Qed.

Lemma take_swap_cells P i t n :
  (Z.to_nat i < n)%nat -> (Z.to_nat t < n)%nat ->
  take n (swap_cells P i t) = swap_cells (take n P) i t.
Proof.
  intros Hi Ht. unfold swap_cells.
  rewrite !take_insert_lt by done.
  by rewrite !lookup_total_take_lt by done.
Qed.

Lemma rd_eq_total a b i :
  rd a i = rd b i -> 0 <= i < Z.of_nat (length a) ->
  a !!! Z.to_nat i = b !!! Z.to_nat i.
Proof.
  intros H Hi. destruct (rd_is_Some a i Hi) as [x Hx].
  rewrite Hx in H. symmetry in H.
  apply rd_total in Hx, H. congruence.
Qed.

Section BaseAdvance.

Variable N : Z.
Hypothesis N_ge_3 : 3 <= N.

(** From a valid counter the base advance either swaps two different
    cells of [P1[0..N-3]] (and the counter has not overflowed) or swaps
    nothing (and it has); the store to [P1[N-1]] follows in both
    cases.  The swaps of the carry loop (line 102) never change the
    buffer and the guard of line 109 never fails. *)
Lemma advance_base_detail s :
  counter_ok (C_PP s) ->
  Z.of_nat (length (C_PP s)) = N ->
  Z.of_nat (length (Circle_D s)) = 3 * N ->
  wp (advance_base N) s (fun _ s' =>
    (C_PP s' !!! 0%nat = 0 /\
     exists i t, 0 <= t < i /\ i <= N - 3 /\
       Circle_D s' =
         <[Z.to_nat (N - 1) := N - 1]> (swap_cells (Circle_D s) i t)) \/
    (C_PP s' !!! 0%nat = 1 /\
     Circle_D s' = <[Z.to_nat (N - 1) := N - 1]> (Circle_D s))).
Proof.
  intros Hok HlC HlD. unfold advance_base.
  apply wp_bind. eapply wp_mono; [apply incr_C_spec; lia|].
  intros [] s1 ->. cbv beta.
  set (C1 := <[Z.to_nat (N - 3) := C_PP s !!! Z.to_nat (N - 3) + 1]> (C_PP s)).
  apply wp_bind. eapply wp_mono.
  { apply (carry_loop_spec N N_ge_3); simpl;
      [|lia|unfold C1; rewrite length_insert; lia|lia].
    unfold C1. split_and!.
    - intros j. destruct (decide (j = Z.to_nat (N - 3))) as [->|Hne].
      + rewrite list_lookup_total_insert_eq by lia.
        pose proof (Hok (Z.to_nat (N - 3))). lia.
      + rewrite list_lookup_total_insert_ne by lia. apply Hok.
    - intros j _ Hne. rewrite list_lookup_total_insert_ne by lia. apply Hok.
    - rewrite list_lookup_total_insert_eq by lia.
      pose proof (Hok (Z.to_nat (N - 3))). lia.
    - rewrite list_lookup_total_insert_eq by lia.
      pose proof (Hok (Z.to_nat (N - 3))). lia.
    - intros Hne. rewrite list_lookup_total_insert_ne by lia.
      pose proof (Hok 0%nat). lia. }
  intros i s2 (_ & HD2 & HlC2 & _ & _ & Hi & Hafter & H1 & H0 & _).
  simpl in *.
  apply wp_bind. eapply wp_mono.
  { apply (final_swap_spec N N_ge_3); try done; try lia.
    - rewrite HlC2. unfold C1. rewrite length_insert. lia.
    - rewrite HD2. lia. }
  intros [] s3 (HD3 & HC3 & _ & _ & HlD3 & _ & _). cbv beta.
  unfold P1, lastIndex. rewrite Z.add_0_l.
  eapply wp_wrD; [rewrite HlD3, HD2; lia|]. simpl.
  rewrite HD3, HC3, HD2. unfold last_swap_rule.
  destruct Hafter as (Hge & Hle & H01).
  destruct (Z.ltb_spec (C_PP s2 !!! 0%nat) 1) as [Hlt|Hge1].
  - left. split; [pose proof (Hge 0%nat); lia|].
    assert (Hi0 : i <> 0).
    { intros ->. change (Z.to_nat 0) with 0%nat in H1. lia. }
    pose proof (Hle (Z.to_nat i) ltac:(lia)) as Hci.
    destruct (Z.leb_spec 0 (C_PP s2 !!! Z.to_nat i - 1)) as [_|Hneg]; [|lia].
    exists i, (C_PP s2 !!! Z.to_nat i - 1). split_and!; try lia. done.
  - right. split; [lia|done].
Qed.

End BaseAdvance.

(** X6: two consecutive evaluations of the loop condition see base
    permutations that differ by one transposition of two different
    cells of [P1[0..N-3]], and so are never equal; only the last
    iteration, the one that overflows the counter, leaves [P1] as it
    was. *)
Theorem X6_one_transposition N k :
  3 <= N -> (S k <= iterations N)%nat ->
  exists s s',
    state_at N k AtHead = Some s /\
    state_at N (S k) AtHead = Some s' /\
    ((S k < iterations N)%nat ->
     exists i t, 0 <= t < i /\ i <= N - 3 /\
       P1_of N s' = swap_cells (P1_of N s) i t /\
       P1_of N s' <> P1_of N s) /\
    (S k = iterations N -> P1_of N s' = P1_of N s).
Proof.
  intros HN Hk.
  destruct (head_inv N HN k) as (s0 & Hs0 & HI0); [lia|].
  destruct (iteration_states N HN k s0 Hs0 HI0)
    as (s0' & s1 & s2 & s3 & HD0 & HC0 & _ & Hat & _ & _ & Hs3 & Hadv &
        Hsync & Hburst & _ & HI3); [lia|].
  exists s0, s3. split; [done|]. split; [unfold state_at; by rewrite Hs3|].
  destruct Hsync as (Hl1 & HD1 & HC1 & _). destruct Hburst as (Hl2 & HD2 & HC2 & _).
  pose proof (Inv_C0_zero N HN k s0 HI0 ltac:(lia)) as H00.
  pose proof (Inv_counter_ok N k s0 HI0 H00) as Hok.
  pose proof HI0 as (HlD & HlC & _ & _ & _ & _ & Hlast & _).
  assert (HlD2 : Z.of_nat (length (Circle_D s2)) = 3 * N).
  { rewrite Hl2, Hl1, HD0. done. }
  pose proof (advance_base_detail N HN s2) as Hwp.
  unfold wp in Hwp. rewrite Hadv in Hwp.
  specialize (Hwp ltac:(by rewrite HC2, HC1, HC0)
                  ltac:(by rewrite HC2, HC1, HC0) HlD2).
  assert (Hsame : forall j, 0 <= j < N - 1 ->
            rd (Circle_D s2) j = rd (Circle_D s0) j).
  { intros j Hj. rewrite HD2, !HD1, HD0.
    repeat case_decide; try lia; done. }
  assert (HlP : length (P1_of N s0) = Z.to_nat N).
  { unfold P1_of, window. rewrite length_take, length_drop. lia. }
  pose proof (Inv_permutation N k s0 HN HI0) as Hperm.
  unfold P1_of, window in *. change (Z.to_nat 0) with 0%nat in *.
  rewrite !drop_0 in *. split.
  - intros Hlt. pose proof (Inv_C0_zero N HN _ s3 HI3 Hlt) as H30.
    destruct Hwp as [(_ & i & t & Ht & Hi & HD3)|[H31 _]]; [|lia].
    exists i, t. split; [done|]. split; [done|].
    assert (Heq : take (Z.to_nat N) (Circle_D s3) =
                  swap_cells (take (Z.to_nat N) (Circle_D s0)) i t).
    { rewrite <- take_swap_cells by lia. apply take_rd_ext.
      intros j Hj. rewrite HD3.
      rewrite rd_insert by (rewrite swap_cells_length; lia).
      rewrite !rd_swap_cells by lia.
      rewrite (rd_eq_total _ _ i (Hsame i ltac:(lia))) by lia.
      rewrite (rd_eq_total _ _ t (Hsame t ltac:(lia))) by lia.
      repeat case_decide; try lia; try done.
      - by subst j.
      - apply Hsame. lia. }
    split; [exact Heq|]. rewrite Heq. intros Hfix.
    set (P := take (Z.to_nat N) (Circle_D s0)) in *.
    assert (HND : NoDup P) by (rewrite Hperm; apply NoDup_seqZ).
    assert (Hrd : rd (swap_cells P i t) t = rd P t) by (by rewrite Hfix).
    rewrite rd_swap_cells in Hrd by lia.
    rewrite decide_True in Hrd by done.
    unfold rd in Hrd. rewrite decide_True in Hrd by lia.
    assert (Hi' : P !! Z.to_nat i = Some (P !!! Z.to_nat i))
      by (apply list_lookup_lookup_total_lt; lia).
    symmetry in Hrd.
    pose proof (NoDup_lookup P _ _ _ HND Hi' Hrd). lia.
  - intros Heq. rewrite Heq in HI3. pose proof (Inv_C0_one N HN s3 HI3) as H31.
    destruct Hwp as [(H30 & _)|[_ HD3]]; [lia|].
    apply take_rd_ext. intros j Hj. rewrite HD3, rd_insert by lia.
    case_decide as E; [by subst j|]. apply Hsame. lia.
Qed.

Lemma X6_one_transposition_witness :
  exists s s',
    state_at 5 2 AtHead = Some s /\
    state_at 5 (S 2) AtHead = Some s' /\
    ((S 2 < iterations 5)%nat ->
     exists i t, 0 <= t < i /\ i <= 5 - 3 /\
       P1_of 5 s' = swap_cells (P1_of 5 s) i t /\
       P1_of 5 s' <> P1_of 5 s) /\
    (S 2 = iterations 5 -> P1_of 5 s' = P1_of 5 s).
Proof.
  apply (X6_one_transposition 5 2); [lia|]. unfold iterations; simpl; lia.
Defined.

(** ** The label [N-1] sweeps through the burst window *)

Section BurstPrefix.

Variable N : Z.
Hypothesis N_ge_3 : 3 <= N.

(** The first [n] shift steps of a burst. *)
Lemma burst_prefix_spec n s :
  Z.of_nat n <= N - 1 ->
  Z.of_nat (length (Circle_D s)) = 3 * N ->
  wp (for_loop n 0 (burst_step N)) s (fun _ s' =>
    length (Circle_D s') = length (Circle_D s) /\
    (forall i, rd (Circle_D s') i =
       if decide (N - 1 <= i < N - 1 + Z.of_nat n)
       then rd (Circle_D s) (i + 1)
       else if decide (i = N - 1 + Z.of_nat n /\ 1 <= Z.of_nat n)
            then Some (N - 1)
            else rd (Circle_D s) i) /\
    C_PP s' = C_PP s /\
    (1 <= Z.of_nat n ->
     total_perms s' = (total_perms s + N * Z.of_nat n) mod ULL_MOD)).
Proof.
  intros Hn Hlen. eapply wp_mono.
  - apply (wp_for_loop (fun ci s' =>
      0 <= ci /\
      length (Circle_D s') = length (Circle_D s) /\
      (forall i, rd (Circle_D s') i =
         if decide (N - 1 <= i < N - 1 + ci) then rd (Circle_D s) (i + 1)
         else if decide (i = N - 1 + ci /\ 1 <= ci) then Some (N - 1)
              else rd (Circle_D s) i) /\
      C_PP s' = C_PP s /\
      (ci = 0 -> total_perms s' = total_perms s) /\
      (1 <= ci -> total_perms s' = (total_perms s + N * ci) mod ULL_MOD))).
    + split; [lia|]. split; [done|]. split.
      { intros i. rewrite decide_False by lia. by rewrite decide_False by lia. }
      repeat split; first [done | lia].
    + intros ci s' Hci (Hci0 & Hl & HD & HC & HT0 & HT).
      unfold burst_step, lastIndex.
      apply wp_bind. apply wp_add_total. cbv beta.
      destruct (rd_is_Some (Circle_D s') (N + ci)) as [v Hv]; [lia|].
      apply wp_bind. eapply (wp_rdD _ _ _ _ v); [done|]. cbv beta.
      apply wp_bind. eapply wp_wrD; simpl; [lia|].
      eapply wp_wrD; simpl; [rewrite length_insert; lia|].
      split; [lia|]. split; [by rewrite !length_insert|]. split.
      { intros i. rewrite rd_insert by (rewrite length_insert; lia).
        rewrite rd_insert by lia.
        rewrite HD in Hv. rewrite decide_False in Hv by lia.
        rewrite decide_False in Hv by lia. rewrite <- Hv, HD.
        repeat case_decide; subst; try lia; first [done | f_equal; lia]. }
      split; [done|]. split; [lia|].
      intros _. destruct (decide (ci = 0)) as [->|Hne].
      * rewrite HT0 by done. f_equal. lia.
      * rewrite HT by lia. rewrite Z.add_mod_idemp_l by done. f_equal. lia.
  - intros [] s' (_ & Hl & HD & HC & _ & HT).
    rewrite Z.add_0_l in *. done.
Qed.

(** The first [N-1] cells of [P1] are a permutation of [0..N-2]. *)
Lemma Inv_base_permutation k s :
  Inv N k s -> is_permutation (N - 1) (window s P1 (N - 1)).
Proof.
  intros (_ & _ & _ & _ & Hperm & Hd2 & _).
  unfold is_permutation, window, P1. change (Z.to_nat 0) with 0%nat.
  rewrite drop_0.
  replace (Z.to_nat (N - 1)) with (S (Z.to_nat (N - 2))) by lia.
  rewrite (take_S_r _ _ (N - 2)).
  2:{ rewrite <- rd_lookup, <- Hd2. f_equal. lia. }
  rewrite Hperm.
  replace (N - 1) with (Z.of_nat (S (Z.to_nat (N - 2)))) by lia.
  rewrite seqZ_S.
  replace (Z.of_nat (Z.to_nat (N - 2))) with (N - 2) by lia.
  by rewrite Z.add_0_l.
Qed.

(** The states of iteration [k] inside its burst. *)
Lemma burst_states k n s0 :
  loop_head N k (init_state N) = Some (tt, s0) ->
  Inv N k s0 -> (k < iterations N)%nat -> Z.of_nat n <= N - 1 ->
  exists s,
    state_in_burst N k n = Some s /\
    (forall j, 0 <= j < N ->
       rd (Circle_D s) (N - 1 + j) =
         if decide (j < Z.of_nat n) then rd (Circle_D s0) j
         else if decide (j = Z.of_nat n /\ 1 <= Z.of_nat n) then Some (N - 1)
              else if decide (j = 0) then rd (Circle_D s0) (N - 1)
                   else rd (Circle_D s0) (j - 1)) /\
    (1 <= Z.of_nat n ->
     total_perms s = (total_perms s0 + N * Z.of_nat n) mod ULL_MOD).
Proof.
  intros Hhead HI Hk Hn.
  pose proof (Inv_C0_zero N N_ge_3 _ _ HI Hk) as H0.
  destruct (body_step N N_ge_3 k s0 HI H0) as (s1 & s2 & s3 & Hb).
  cbv zeta in Hb.
  destruct Hb as (Hrd & Hs1 & _ & _ & Hsync & _).
  set (s0' := St (Circle_D s0) (C_PP s0) (total_perms s0)
                 (Ev 85 ArrC Rd 0 :: log s0)) in *.
  assert (Henter : enter_loop s0 = Some (tt, s0')).
  { unfold enter_loop. by rewrite (bind_Some _ _ _ _ _ Hrd). }
  destruct Hsync as (Hl1 & HD1 & _ & HT1 & _).
  destruct HI as (HlD & _).
  assert (HlD1 : Z.of_nat (length (Circle_D s1)) = 3 * N)
    by (rewrite Hl1; exact HlD).
  destruct (wp_unit_elim _ s1 _ (burst_prefix_spec n s1 Hn HlD1))
    as (s & Hs & _ & HD & _ & HT).
  exists s. split_and!.
  - unfold state_in_burst. rewrite (bind_Some _ _ _ _ _ Hhead).
    rewrite (bind_Some _ _ _ _ _ Henter).
    rewrite (bind_Some _ _ _ _ _ Hs1). by rewrite Hs.
  - intros j Hj. rewrite HD, !HD1. simpl.
    repeat case_decide; try lia; first [done | f_equal; lia].
  - intros H1. rewrite HT by done. by rewrite HT1.
Qed.

End BurstPrefix.

(** X7: in every outer iteration, after [n] shift steps of the burst
    ([1 <= n <= N-1]) the [N] cells [Circle_D[N-1..2N-2]] hold the
    first [N-1] labels of the base permutation in their order with the
    label [N-1] put in at position [n]; they are a permutation of
    [0..N-1], and [total_perms] has grown by [n*N] since the start of
    the iteration. *)
Theorem X7_burst_window N k n :
  3 <= N -> (k < iterations N)%nat -> (1 <= n)%nat -> Z.of_nat n <= N - 1 ->
  exists s0 s,
    state_at N k AtHead = Some s0 /\
    state_in_burst N k n = Some s /\
    window s (N - 1) N =
      take n (window s0 P1 (N - 1)) ++
      (N - 1) :: drop n (window s0 P1 (N - 1)) /\
    is_permutation N (window s (N - 1) N) /\
    total_perms s = (total_perms s0 + N * Z.of_nat n) mod ULL_MOD.
Proof.
  intros HN Hk Hn1 Hn.
  destruct (head_inv N HN k) as (s0 & Hs0 & HI0); [lia|].
  destruct (burst_states N HN k n s0 Hs0 HI0 Hk Hn) as (s & Hs & HD & HT).
  exists s0, s. split; [unfold state_at; by rewrite Hs0|]. split; [done|].
  pose proof HI0 as (HlD & _).
  set (base := window s0 P1 (N - 1)).
  assert (Hlb : length base = Z.to_nat (N - 1)).
  { unfold base, window. rewrite length_take, length_drop. unfold P1. lia. }
  assert (Hwin : window s (N - 1) N = take n base ++ (N - 1) :: drop n base).
  { apply list_eq. intros j.
    destruct (decide (j < Z.to_nat N)%nat) as [Hj|Hj].
    - rewrite window_lookup by lia. rewrite HD by lia.
      destruct (decide (j < n)%nat) as [Hjn|Hjn].
      + rewrite decide_True by lia.
        rewrite lookup_app_l by (rewrite length_take; lia).
        rewrite lookup_take_lt by done. unfold base.
        rewrite window_lookup by (unfold P1; lia). unfold P1. f_equal; lia.
      + rewrite decide_False by lia.
        rewrite lookup_app_r by (rewrite length_take; lia).
        rewrite length_take, Nat.min_l by lia.
        destruct (decide (j = n)) as [->|Hne].
        * rewrite decide_True by lia. by rewrite Nat.sub_diag.
        * rewrite decide_False by lia. rewrite decide_False by lia.
          replace (j - n)%nat with (S (j - n - 1)) by lia. simpl.
          rewrite lookup_drop. unfold base.
          rewrite window_lookup by (unfold P1; lia). unfold P1.
          f_equal; lia.
    - unfold window at 1. rewrite lookup_take_ge by lia. symmetry.
      apply lookup_ge_None_2. rewrite length_app, length_take. simpl.
      rewrite length_drop. lia. }
  split; [exact Hwin|]. split; [|apply HT; lia].
  rewrite Hwin. unfold is_permutation.
  rewrite <- Permutation_middle, take_drop.
  pose proof (Inv_base_permutation N HN k s0 HI0) as Hp.
  unfold is_permutation in Hp. fold base in Hp. rewrite Hp.
  replace N with (Z.of_nat (S (Z.to_nat (N - 1)))) at 3 by lia.
  rewrite seqZ_S.
  replace (Z.of_nat (Z.to_nat (N - 1))) with (N - 1) by lia.
  rewrite Z.add_0_l. by rewrite Permutation_app_comm.
Qed.

Lemma X7_burst_window_witness :
  exists s0 s,
    state_at 5 2 AtHead = Some s0 /\
    state_in_burst 5 2 3 = Some s /\
    window s (5 - 1) 5 =
      take 3 (window s0 P1 (5 - 1)) ++
      (5 - 1) :: drop 3 (window s0 P1 (5 - 1)) /\
    is_permutation 5 (window s (5 - 1) 5) /\
    total_perms s = (total_perms s0 + 5 * Z.of_nat 3) mod ULL_MOD.
Proof.
  apply (X7_burst_window 5 2 3); [lia| |lia|lia].
  unfold iterations; simpl; lia.
Defined.

(** ** The two spare cells of the buffer *)

Lemma init_P1_tail N :
  3 <= N ->
  wp (init_P1 N) (init_state N) (fun _ s =>
    forall i, N <= i < 3 * N -> rd (Circle_D s) i = Some 0).
Proof.
  intros HN. unfold init_P1, P1. eapply wp_mono.
  - apply (wp_for_loop (fun j s =>
      0 <= j /\
      Z.of_nat (length (Circle_D s)) = 3 * N /\
      forall i, N <= i < 3 * N -> rd (Circle_D s) i = Some 0)).
    + simpl. rewrite length_replicate. split_and!; try lia.
      intros i Hi. unfold rd. rewrite decide_True by lia.
      apply lookup_replicate_2. lia.
    + intros j s Hj (_ & Hl & HD).
      rewrite Z.add_0_l. eapply wp_wrD; [lia|]. simpl.
      rewrite length_insert. split_and!; try done; try lia.
      intros i Hi. rewrite rd_insert by lia.
      case_decide; [lia|]. by apply HD.
  - intros [] s (_ & _ & HD). exact HD.
Qed.

Lemma tail_cells_inv N k :
  3 <= N -> (k <= iterations N)%nat ->
  exists s,
    loop_head N k (init_state N) = Some (tt, s) /\ Inv N k s /\
    rd (Circle_D s) (3 * N - 2) = Some 0 /\
    rd (Circle_D s) (3 * N - 1) = Some 0.
Proof.
  intros HN. induction k as [|k IH]; intros Hk.
  - destruct (head_inv N HN 0) as (s & Hs & HI); [lia|].
    pose proof (init_P1_tail N HN) as Hwp. unfold wp in Hwp.
    simpl in Hs. rewrite Hs in Hwp.
    exists s. split_and!; try done; apply Hwp; lia.
  - destruct IH as (s0 & Hs0 & HI0 & Ha & Hb); [lia|].
    destruct (iteration_states N HN k s0 Hs0 HI0)
      as (s0' & s1 & s2 & s3 & HD0 & _ & _ & _ & _ & _ & Hs3 & _ &
          Hsync & Hburst & Hadv & HI3); [lia|].
    destruct Hsync as (_ & HD1 & _). destruct Hburst as (_ & HD2 & _).
    destruct Hadv as (_ & _ & _ & _ & _ & _ & HD3 & _).
    exists s3. split_and!; try done.
    + rewrite HD3, decide_False, HD2, !HD1, HD0 by lia.
      repeat case_decide; try lia; done.
    + rewrite HD3, decide_False, HD2, !HD1, HD0 by lia.
      repeat case_decide; try lia; done.
Qed.

(** X8: [Circle_D] has [3*N] cells but the loop uses [3*N-2]: whenever
    the loop condition is evaluated the last two cells still hold the 0
    of their static initialisation. *)
Theorem X8_spare_cells N k :
  3 <= N -> (k <= iterations N)%nat ->
  exists s,
    state_at N k AtHead = Some s /\
    rd (Circle_D s) (3 * N - 2) = Some 0 /\
    rd (Circle_D s) (3 * N - 1) = Some 0.
Proof.
  intros HN Hk. destruct (tail_cells_inv N k HN Hk) as (s & Hs & _ & Ha & Hb).
  exists s. unfold state_at. by rewrite Hs.
Qed.

Lemma X8_spare_cells_witness :
  exists s,
    state_at 5 4 AtHead = Some s /\
    rd (Circle_D s) (3 * 5 - 2) = Some 0 /\
    rd (Circle_D s) (3 * 5 - 1) = Some 0.
Proof.
  apply (X8_spare_cells 5 4); [lia|]. unfold iterations; simpl; lia.
Defined.

(** ** The carry loop does not move labels *)

Lemma carry_at_after_incr C m :
  counter_ok C -> (m < length C)%nat ->
  carry_at m (<[m := C !!! m + 1]> C).
Proof.
  intros Hok Hm. split_and!.
  - intros j. destruct (decide (j = m)) as [->|Hne].
    + rewrite list_lookup_total_insert_eq by done. pose proof (Hok m). lia.
    + rewrite list_lookup_total_insert_ne by done. apply Hok.
  - intros j _ Hne. rewrite list_lookup_total_insert_ne by done. apply Hok.
  - rewrite list_lookup_total_insert_eq by done. pose proof (Hok m). lia.
  - rewrite list_lookup_total_insert_eq by done. pose proof (Hok m). lia.
  - intros Hne. rewrite list_lookup_total_insert_ne by done.
    pose proof (Hok 0%nat). lia.
Qed.

(** X9: from every valid counter, the increment of line 99 and the
    carry loop of lines 100-106 return with [Circle_D] as it was: the
    swaps of line 102 move nothing.  The loop ends at an index [i] in
    [0..N-3] with [C_PP[i] >= 1], so the target [C_PP[i] - 1] of line
    108 is never negative. *)
Theorem X9_carry_loop_keeps_buffer N s :
  3 <= N ->
  Z.of_nat (length (Circle_D s)) = 3 * N ->
  Z.of_nat (length (C_PP s)) = N ->
  (forall i, 0 <= i < N -> exists c, rd (C_PP s) i = Some c /\ 0 <= c <= i) ->
  exists s1 i s2,
    incr_C 99 (N - 3) s = Some (tt, s1) /\
    carry_loop (Z.to_nat (N - 3)) s1 = Some (i, s2) /\
    Circle_D s2 = Circle_D s /\
    0 <= i <= N - 3 /\
    exists c, rd (C_PP s2) i = Some c /\ 1 <= c.
Proof.
  intros HN HlD HlC HC.
  pose proof (counter_ok_of_rd N _ HN HlC HC) as Hok.
  destruct (wp_unit_elim _ s _ (incr_C_spec 99 (N - 3) s ltac:(lia)))
    as (s1 & Hs1 & Heq).
  assert (Hcarry : carry_at (Z.to_nat (N - 3)) (C_PP s1)).
  { rewrite Heq. simpl. apply carry_at_after_incr; [done|lia]. }
  assert (HlC1 : Z.of_nat (length (C_PP s1)) = N).
  { rewrite Heq. simpl. rewrite length_insert. done. }
  assert (HlD1 : Z.of_nat (length (Circle_D s1)) = 3 * N).
  { rewrite Heq. done. }
  destruct (wp_elim _ s1 _
              (carry_loop_spec N HN (Z.to_nat (N - 3)) s1 Hcarry
                 ltac:(lia) HlC1 HlD1))
    as (i & s2 & Hs2 & _ & HD2 & HlC2 & _ & _ & Hi & _ & H1 & _).
  exists s1, i, s2. split_and!; try done; try lia.
  - rewrite HD2, Heq. done.
  - exists (C_PP s2 !!! Z.to_nat i). split; [|done].
    unfold rd. rewrite decide_True by lia.
    apply list_lookup_lookup_total_lt. lia.
Qed.

Lemma X9_carry_loop_keeps_buffer_witness :
  let s := St [2; 0; 1; 3; 2; 0; 1; 3; 4; 2; 0; 1; 3; 0; 0]
              [0; 0; 2; 0; 0] 60 [] in
  exists s1 i s2,
    incr_C 99 (5 - 3) s = Some (tt, s1) /\
    carry_loop (Z.to_nat (5 - 3)) s1 = Some (i, s2) /\
    Circle_D s2 = Circle_D s /\
    0 <= i <= 5 - 3 /\
    exists c, rd (C_PP s2) i = Some c /\ 1 <= c.
Proof.
  intros s. apply (X9_carry_loop_keeps_buffer 5 s);
    [lia|reflexivity|reflexivity|].
  intros i Hi.
  assert (i = 0 \/ i = 1 \/ i = 2 \/ i = 3 \/ i = 4)
    as [->|[->|[->|[->| ->]]]] by lia;
    eexists; (split; [reflexivity|lia]).
Defined.
